(** * A shallow embedding of the CUDA path tracer with material aging

    Sources embedded here:
    - [AgingEffects.cu]   : [hash], [noise], [applyRustEffect], [applyPaintAging];
    - [raytracer_kernel.cu] : [intersectSphere], [intersectPlane],
      [intersectScene], [traceRay], [generateCameraRay], [initRand],
      [renderKernel] and the host side [initializeGPUData].

    The device computes with single precision numbers.  The embedding does not
    fix a representation for them: every function is written against the
    interface [FloatOps], which lists the operations the sources use.  Facts
    about control flow are proved for every implementation of the interface.
    Facts that need algebra (a product with zero, a convex combination) are
    proved for implementations whose operations form an exact field
    ([field_theory]); rounding, infinities and NaN lie outside such
    implementations.  The rational instance [Qc_ops] runs the definitions on
    concrete inputs, and the instance [binary32_ops] rounds the result of
    every operation to the nearest single precision number. *)

From Stdlib Require Import String ZArith List Bool Lia QArith Qround Qcanon Field Ring.
Import ListNotations.

Set Implicit Arguments.

(** ** Single precision arithmetic as an interface *)

Declare Scope float_scope.
Delimit Scope float_scope with flt.

Class FloatOps (F : Type) : Type := {
  lit    : Q -> F;          (* a literal of the source, e.g. [43758.5453f] *)
  of_int : Z -> F;          (* conversion of an integer value *)
  fadd   : F -> F -> F;
  fsub   : F -> F -> F;
  fmul   : F -> F -> F;
  fdiv   : F -> F -> F;
  fopp   : F -> F;
  flt    : F -> F -> bool;  (* [a < b]; [a > b] is [flt b a] *)
  sinf   : F -> F;
  tanf   : F -> F;
  sqrtf  : F -> F;
  floorf : F -> F;
  fabsf  : F -> F;
  fmaxf  : F -> F -> F
}.

Infix "+" := fadd : float_scope.
Infix "-" := fsub : float_scope.
Infix "*" := fmul : float_scope.
Infix "/" := fdiv : float_scope.
Notation "- a" := (fopp a) : float_scope.
Infix "<?" := flt : float_scope.
Notation "a >? b" := (flt b a) : float_scope.

(** ** Vectors, colours and the CUDA tuples

    Modelled from the spec: [Vec3.cuh] and [Color.cuh] are absent from the
    sources.  The data model has 3D points, 3D vectors and RGB colours; the
    operators the sources apply to them act component by component, and
    [Point3f_t] is the same type as [Vec3f_t]. *)

Record float3 (F : Type) : Type := make_float3 { f3x : F; f3y : F; f3z : F }.
Record float4 (F : Type) : Type :=
  make_float4 { f4x : F; f4y : F; f4z : F; f4w : F }.
Record Vec3f_t (F : Type) : Type := Vec3 { vx : F; vy : F; vz : F }.
Record Color_t (F : Type) : Type := Color { cr : F; cg : F; cb : F }.

Definition Point3f_t := Vec3f_t.

Section VectorOps.
Context {F : Type} {ops : FloatOps F}.
Local Open Scope float_scope.

Definition Vec3_fromFloat3 (v : float3 F) : Vec3f_t F :=
  Vec3 (f3x v) (f3y v) (f3z v).
Definition Color_fromFloat3 (v : float3 F) : Color_t F :=
  Color (f3x v) (f3y v) (f3z v).

Definition vadd (a b : Vec3f_t F) : Vec3f_t F :=
  Vec3 (vx a + vx b) (vy a + vy b) (vz a + vz b).
Definition vsub (a b : Vec3f_t F) : Vec3f_t F :=
  Vec3 (vx a - vx b) (vy a - vy b) (vz a - vz b).
Definition vscale (a : Vec3f_t F) (s : F) : Vec3f_t F :=
  Vec3 (vx a * s) (vy a * s) (vz a * s).
Definition vdivs (a : Vec3f_t F) (s : F) : Vec3f_t F :=
  Vec3 (vx a / s) (vy a / s) (vz a / s).
Definition vneg (a : Vec3f_t F) : Vec3f_t F :=
  Vec3 (- vx a) (- vy a) (- vz a).
Definition dot (a b : Vec3f_t F) : F :=
  vx a * vx b + vy a * vy b + vz a * vz b.

(** [Color_t(v)] with one argument fills the three channels. *)
Definition Color1 (v : F) : Color_t F := Color v v v.
Definition cadd (a b : Color_t F) : Color_t F :=
  Color (cr a + cr b) (cg a + cg b) (cb a + cb b).
Definition cmul (a b : Color_t F) : Color_t F :=
  Color (cr a * cr b) (cg a * cg b) (cb a * cb b).
Definition cscale (a : Color_t F) (s : F) : Color_t F :=
  Color (cr a * s) (cg a * s) (cb a * s).

(** Modelled from the spec: [lerp] of [Color.cuh] is absent from the
    sources; the rust effect must "linearly interpolate base color toward
    rust_color by rust_amount", which is the convex combination
    [a * (1 - t) + b * t]. *)
Definition lerp (a b : Color_t F) (t : F) : Color_t F :=
  cadd (cscale a (lit 1 - t)) (cscale b t).
End VectorOps.

(** ** AgingEffects.cu *)

Record RustParameters (F : Type) : Type := {
  oxidation_level   : F;
  surface_roughness : F;
  pattern_scale     : F;
  rust_padding      : F;
  rust_color        : Color_t F
}.

Record PaintAgingParameters (F : Type) : Type := {
  peeling_amount : F;
  crack_density  : F;
  weathering     : F;
  paint_padding  : F;
  underlay_color : Color_t F
}.

Section AgingEffects.
Context {F : Type} {ops : FloatOps F}.
Local Open Scope float_scope.

Definition hash (n : F) : F :=
  let x := sinf n * lit 43758.5453 in
  x - floorf x.

(** The function keeps the three smoothed offsets the source computes,
    although the returned expression does not read them. *)
Definition noise (point : Point3f_t F) : F :=
  let p := Vec3 (floorf (vx point)) (floorf (vy point)) (floorf (vz point)) in
  let x := vx point - vx p in
  let y := vy point - vy p in
  let z := vz point - vz p in
  let p := Vec3 (hash (vx p)) (vy p) (vz p) in
  let p := Vec3 (vx p) (hash (vy p)) (vz p) in
  let p := Vec3 (vx p) (vy p) (hash (vz p)) in
  let x := x * x * (lit 3 - lit 2 * x) in
  let y := y * y * (lit 3 - lit 2 * y) in
  let z := z * z * (lit 3 - lit 2 * z) in
  hash (vx p + vy p * lit 57 + vz p * lit 113).

Definition applyRustEffect (base_color : Color_t F) (point : Point3f_t F)
    (params : RustParameters F) (noise_value : F) : Color_t F :=
  let pattern := noise (vscale point (pattern_scale params)) in
  let rust_amount := pattern * oxidation_level params in
  let rusted_color := lerp base_color (rust_color params) rust_amount in
  let roughness_factor := lit 1 + surface_roughness params * rust_amount in
  let rusted_color := cscale rusted_color (lit 1 / roughness_factor) in
  rusted_color.

(** The intermediate values of [applyPaintAging], named as in the source. *)
Definition peel_threshold (params : PaintAgingParameters F) : F :=
  lit 1 - peeling_amount params.

Definition peel_factor (params : PaintAgingParameters F) (noise_value : F) : F :=
  if noise_value >? peel_threshold params then lit 1 else lit 0.

Definition applyPaintAging (base_color : Color_t F) (point : Point3f_t F)
    (params : PaintAgingParameters F) (noise_value : F) : Color_t F :=
  let crack_pattern :=
    noise (vscale point (lit 1 + crack_density params * lit 10)) in
  let aged_color := cscale base_color (lit 1 - weathering params * lit 0.3) in
  let final_color :=
    lerp aged_color (underlay_color params) (peel_factor params noise_value) in
  if crack_pattern <? crack_density params * lit 0.2
  then cscale final_color (lit 0.7)
  else final_color.
End AgingEffects.

(** ** raytracer_kernel.cu: data *)

Inductive RayType : Type := PRIMARY | SECONDARY.

(** Modelled from the spec: [Ray.cuh] is absent from the sources.  A ray has
    an "origin (3D point), normalized direction (3D vector), a validity
    interval for hit distance, and a tag (primary vs. secondary)". *)
Record Ray_t (F : Type) : Type := {
  origin    : Point3f_t F;
  direction : Vec3f_t F;
  t_min     : F;
  t_max     : F;
  ray_type  : RayType
}.

(** The records of [raytracer_kernel.cuh] and [Intersection.cuh], with the
    fields the sources read and write.  [Mat] stands for the values of
    [Material_t*], the null pointer included. *)
Record GPUCamera (F : Type) : Type := {
  cam_origin  : float3 F;
  cam_forward : float3 F;
  cam_right   : float3 F;
  cam_up      : float3 F;
  cam_fov     : F;
  cam_width   : Z;
  cam_height  : Z
}.

Record GPUSphere (F Mat : Type) : Type := {
  center      : float3 F;
  radius      : F;
  sph_material : Mat;
  is_emissive : bool;
  sph_emission : float3 F
}.

Record GPUPlane (F Mat : Type) : Type := {
  pl_point    : float3 F;
  pl_normal   : float3 F;
  pl_material : Mat
}.

Record Intersection_t (F Mat : Type) : Type := {
  point     : Point3f_t F;
  normal    : Vec3f_t F;
  distance  : F;
  color     : Color_t F;
  frontFace : bool;
  emission  : Color_t F;
  hit       : bool;
  material  : Mat
}.

Record ScatterRecord_t (F : Type) : Type := {
  attenuation   : Color_t F;
  scattered_ray : Ray_t F;
  pdf           : F;
  is_specular   : bool
}.

(** The [__constant__] symbols of the translation unit.  The two arrays are
    declared with sixteen elements each. *)
Definition capacity : nat := 16.

Record Broadcast (F Mat : Type) : Type := {
  d_camera      : GPUCamera F;
  d_spheres     : list (GPUSphere F Mat);
  d_planes      : list (GPUPlane F Mat);
  d_num_spheres : Z;
  d_num_planes  : Z
}.

(** What the kernel takes from headers that are not part of the sources
    ([Ray.cuh], [Intersection.cuh], [Material.cuh], the [FLOAT_MAX] macro) and
    from cuRAND.  [Rand] is [curandState]; a draw returns the sample together
    with the advanced state.  [scatter] returns [None] where the C++ method
    returns [false].  The kernel calls the three methods through the
    material pointer of the hit record without testing it; the environment
    gives their results on a pointer to a live material, and a call through
    the null pointer, which the source leaves undefined, is not
    represented. *)
Class KernelEnv (F Mat Rand : Type) : Type := {
  FLOAT_MAX         : F;
  Ray_ctor          : Point3f_t F -> Vec3f_t F -> RayType -> Ray_t F;
  isValidDistance   : Ray_t F -> F -> bool;
  Intersection_ctor : Intersection_t F Mat;
  emitted           : Mat -> Ray_t F -> Intersection_t F Mat -> Color_t F;
  scatter           : Mat -> Ray_t F -> Intersection_t F Mat -> Rand ->
                      option (ScatterRecord_t F) * Rand;
  scatteringPdf     : Mat -> Ray_t F -> Intersection_t F Mat -> Ray_t F -> F;
  curand_init       : Z -> Rand;
  curand_uniform    : Rand -> F * Rand
}.

(** Unsigned 32 bit arithmetic wraps around. *)
Definition wrap32 (z : Z) : Z := z mod 2 ^ 32.

(** The conversion to [int]: the value congruent modulo [2^32] that lies
    between [-2^31] and [2^31 - 1]. *)
Definition to_int32 (z : Z) : Z := (z + 2 ^ 31) mod 2 ^ 32 - 2 ^ 31.

Section Kernel.
Context {F Mat Rand : Type} {ops : FloatOps F} {env : KernelEnv F Mat Rand}.
Local Open Scope float_scope.

Let Isect : Type := Intersection_t F Mat.

(** Field updates of an intersection record. *)
Definition set_hit (b : bool) (i : Isect) : Isect :=
  Build_Intersection_t (point i) (normal i) (distance i) (color i)
    (frontFace i) (emission i) b (material i).
Definition set_distance (d : F) (i : Isect) : Isect :=
  Build_Intersection_t (point i) (normal i) d (color i)
    (frontFace i) (emission i) (hit i) (material i).
Definition set_point (p : Point3f_t F) (i : Isect) : Isect :=
  Build_Intersection_t p (normal i) (distance i) (color i)
    (frontFace i) (emission i) (hit i) (material i).
Definition set_normal (n : Vec3f_t F) (i : Isect) : Isect :=
  Build_Intersection_t (point i) n (distance i) (color i)
    (frontFace i) (emission i) (hit i) (material i).
Definition set_material (m : Mat) (i : Isect) : Isect :=
  Build_Intersection_t (point i) (normal i) (distance i) (color i)
    (frontFace i) (emission i) (hit i) m.
Definition set_emission (e : Color_t F) (i : Isect) : Isect :=
  Build_Intersection_t (point i) (normal i) (distance i) (color i)
    (frontFace i) e (hit i) (material i).
Definition set_frontFace (b : bool) (i : Isect) : Isect :=
  Build_Intersection_t (point i) (normal i) (distance i) (color i)
    b (emission i) (hit i) (material i).

(** Modelled from the spec: [Ray_t::at] of the absent [Ray.cuh], the point at
    parameter [t] along the ray. *)
Definition Ray_at (ray : Ray_t F) (t : F) : Point3f_t F :=
  vadd (origin ray) (vscale (direction ray) t).

(** Modelled from the spec: [Intersection_t::setFaceNormal] of the absent
    [Intersection.cuh].  Front-face correction is "flipping a surface normal
    to always oppose the incoming ray". *)
Definition setFaceNormal (ray : Ray_t F) (outward_normal : Vec3f_t F)
    (i : Isect) : Isect :=
  let ff := dot (direction ray) outward_normal <? lit 0 in
  set_normal (if ff then outward_normal else vneg outward_normal)
    (set_frontFace ff i).

(** Modelled from the spec: [Vec3f_t::normalized] of the absent [Vec3.cuh]. *)
Definition normalized (v : Vec3f_t F) : Vec3f_t F :=
  vdivs v (sqrtf (dot v v)).

(** *** Intersection tests *)

(** The two candidate distances of the sphere test, in the order the source
    tries them. *)
Definition sphere_half_b (ray : Ray_t F) (sphere : GPUSphere F Mat) : F :=
  dot (vsub (origin ray) (Vec3_fromFloat3 (center sphere))) (direction ray).
Definition sphere_discriminant (ray : Ray_t F) (sphere : GPUSphere F Mat) : F :=
  let oc := vsub (origin ray) (Vec3_fromFloat3 (center sphere)) in
  let a := lit 1 in
  let half_b := dot oc (direction ray) in
  let c := dot oc oc - radius sphere * radius sphere in
  half_b * half_b - a * c.
Definition sphere_root_near (ray : Ray_t F) (sphere : GPUSphere F Mat) : F :=
  (- sphere_half_b ray sphere - sqrtf (sphere_discriminant ray sphere)) / lit 1.
Definition sphere_root_far (ray : Ray_t F) (sphere : GPUSphere F Mat) : F :=
  (- sphere_half_b ray sphere + sqrtf (sphere_discriminant ray sphere)) / lit 1.

(** The record filled in once a root has been accepted. *)
Definition sphere_hit_record (ray : Ray_t F) (sphere : GPUSphere F Mat)
    (root : F) (isect : Isect) : Isect :=
  let sphere_center := Vec3_fromFloat3 (center sphere) in
  let isect := set_hit true isect in
  let isect := set_distance root isect in
  let isect := set_point (Ray_at ray root) isect in
  let isect :=
    set_normal (vdivs (vsub (point isect) sphere_center) (radius sphere)) isect in
  let isect := set_material (sph_material sphere) isect in
  let isect := setFaceNormal ray (normal isect) isect in
  if is_emissive sphere
  then set_emission (Color_fromFloat3 (sph_emission sphere)) isect
  else isect.

Definition intersectSphere (ray : Ray_t F) (sphere : GPUSphere F Mat) : Isect :=
  let isect := set_hit false Intersection_ctor in
  let sphere_center := Vec3_fromFloat3 (center sphere) in
  let oc := vsub (origin ray) sphere_center in
  let a := lit 1 in
  let half_b := dot oc (direction ray) in
  let c := dot oc oc - radius sphere * radius sphere in
  let discriminant := half_b * half_b - a * c in
  if discriminant <? lit 0 then isect
  else
    let sqrtd := sqrtf discriminant in
    let root := (- half_b - sqrtd) / a in
    if negb (isValidDistance ray root) then
      let root := (- half_b + sqrtd) / a in
      if negb (isValidDistance ray root) then isect
      else sphere_hit_record ray sphere root isect
    else sphere_hit_record ray sphere root isect.

Definition intersectPlane (ray : Ray_t F) (plane : GPUPlane F Mat) : Isect :=
  let isect := set_hit false Intersection_ctor in
  let plane_normal := Vec3_fromFloat3 (pl_normal plane) in
  let plane_point := Vec3_fromFloat3 (pl_point plane) in
  let denom := dot plane_normal (direction ray) in
  if fabsf denom <? lit 1e-6 then isect
  else
    let t := dot (vsub plane_point (origin ray)) plane_normal / denom in
    if negb (isValidDistance ray t) then isect
    else
      let isect := set_hit true isect in
      let isect := set_distance t isect in
      let isect := set_point (Ray_at ray t) isect in
      let isect := set_normal plane_normal isect in
      let isect := set_material (pl_material plane) isect in
      setFaceNormal ray plane_normal isect.

(** *** Scene query

    Both loops of [intersectScene] have the same body.  [scan] reads
    [arr[i]], [arr[i+1]], ... for [n] rounds; reading past the end of the
    array has no defined result and is reported as [None]. *)
Definition closer (cand : Isect) (best : F * Isect) : F * Isect :=
  if hit cand && (distance cand <? fst best)
  then (distance cand, cand)
  else best.

Fixpoint scan {A : Type} (test : A -> Isect) (arr : list A) (i n : nat)
    (best : F * Isect) : option (F * Isect) :=
  match n with
  | O => Some best
  | S n' =>
      match nth_error arr i with
      | None => None
      | Some obj => scan test arr (S i) n' (closer (test obj) best)
      end
  end.

Definition intersectScene (st : Broadcast F Mat) (ray : Ray_t F)
    : option Isect :=
  let closest_hit := set_hit false Intersection_ctor in
  let closest_dist := FLOAT_MAX in
  match scan (intersectSphere ray) (d_spheres st) 0
             (Z.to_nat (d_num_spheres st)) (closest_dist, closest_hit) with
  | None => None
  | Some best =>
      match scan (intersectPlane ray) (d_planes st) 0
                 (Z.to_nat (d_num_planes st)) best with
      | None => None
      | Some best => Some (snd best)
      end
  end.

(** *** Path integrator *)

(** The variables [traceRay] carries from one bounce to the next. *)
Record PathState : Type := {
  ps_ray         : Ray_t F;
  ps_final_color : Color_t F;
  ps_throughput  : Color_t F;
  ps_rand        : Rand
}.

(** What one execution of the loop body ends with: [break], or the state
    for the next value of [depth] ([continue] and falling off the end of
    the body alike). *)
Inductive Bounce : Type :=
| Break (s : PathState)
| Next (s : PathState).

Definition max_channel (c : Color_t F) : F :=
  fmaxf (cr c) (fmaxf (cg c) (cb c)).

Definition traceRay_body (st : Broadcast F Mat) (depth : Z) (s : PathState)
    : option Bounce :=
  let ray := ps_ray s in
  match intersectScene st ray with
  | None => None
  | Some isect =>
    if negb (hit isect) then Some (Break s)
    else
      let final_color :=
        cadd (ps_final_color s)
             (cmul (ps_throughput s) (emitted (material isect) ray isect)) in
      match scatter (material isect) ray isect (ps_rand s) with
      | (None, rand) =>
          Some (Break (Build_PathState ray final_color (ps_throughput s) rand))
      | (Some srec, rand) =>
        if is_specular srec then
          Some (Next (Build_PathState (scattered_ray srec) final_color
                        (cmul (ps_throughput s) (attenuation srec)) rand))
        else
          let ray := scattered_ray srec in
          let brdf :=
            cscale (attenuation srec)
                   (scatteringPdf (material isect) ray isect
                                  (scattered_ray srec)) in
          let throughput :=
            cmul (ps_throughput s) (cscale brdf (lit 1 / pdf srec)) in
          if (3 <? depth)%Z then
            let p := max_channel throughput in
            let (u, rand) := curand_uniform rand in
            if u >? p then
              Some (Break (Build_PathState ray final_color throughput rand))
            else
              Some (Next (Build_PathState ray final_color
                            (cscale throughput (lit 1 / p)) rand))
          else
            Some (Next (Build_PathState ray final_color throughput rand))
      end
  end.

(** [for (depth = ...; depth < max_depth; depth++)], with [fuel] rounds
    left. *)
Fixpoint traceRay_loop (st : Broadcast F Mat) (fuel : nat) (depth : Z)
    (s : PathState) : option PathState :=
  match fuel with
  | O => Some s
  | S fuel' =>
      match traceRay_body st depth s with
      | None => None
      | Some (Break s') => Some s'
      | Some (Next s') => traceRay_loop st fuel' (depth + 1) s'
      end
  end.

(** The result is the colour together with the advanced generator state,
    which the C++ function updates through its pointer argument. *)
Definition traceRay (st : Broadcast F Mat) (ray : Ray_t F)
    (rand_state : Rand) (max_depth : Z) : option (Color_t F * Rand) :=
  let final_color := Color1 (lit 0) in
  let throughput := Color1 (lit 1) in
  match traceRay_loop st (Z.to_nat max_depth) 0
          (Build_PathState ray final_color throughput rand_state) with
  | None => None
  | Some s => Some (ps_final_color s, ps_rand s)
  end.

(** *** Camera rays and the render kernel *)

Definition generateCameraRay (st : Broadcast F Mat) (u v : F) : Ray_t F :=
  let cam := d_camera st in
  let aspect_ratio := of_int (cam_width cam) / of_int (cam_height cam) in
  let viewport_height := lit 2 * tanf (cam_fov cam * lit 0.5) in
  let viewport_width := aspect_ratio * viewport_height in
  let origin := Vec3_fromFloat3 (cam_origin cam) in
  let forward := Vec3_fromFloat3 (cam_forward cam) in
  let right := Vec3_fromFloat3 (cam_right cam) in
  let up := Vec3_fromFloat3 (cam_up cam) in
  let x_offset := (lit 2 * u - lit 1) * viewport_width * lit 0.5 in
  let y_offset := (lit 2 * v - lit 1) * viewport_height * lit 0.5 in
  let ray_direction :=
    vadd (vadd forward (vscale right x_offset)) (vscale up y_offset) in
  let ray_direction := normalized ray_direction in
  Ray_ctor origin ray_direction PRIMARY.

(** The coordinates of one thread: [thread_x] and [thread_y] are the values
    of the [int] variables that hold [blockIdx * blockDim + threadIdx] along
    each axis, and [thread_row] is [gridDim.x * blockDim.x]. *)
Record Thread : Type := { thread_x : Z; thread_y : Z; thread_row : Z }.

Definition initRand (th : Thread) (seed : Z) : Rand :=
  let idx := thread_x th in
  let idy := thread_y th in
  let offset := wrap32 (idy * thread_row th + idx) in
  curand_init (wrap32 (seed + offset)).

(** The accumulation step at the end of [renderKernel]: [prev_color] is
    the content of the pixel's cell before the write. *)
Definition blend_weight (frame_count : Z) : F :=
  lit 1 / of_int (wrap32 (frame_count + 1)).

Definition accumulate (frame_count : Z) (pixel_color : Color_t F)
    (prev_color : float4 F) : float4 F :=
  let pixel_color :=
    if (0 <? frame_count)%Z then
      let t := blend_weight frame_count in
      cadd (cscale pixel_color t)
           (cscale (Color (f4x prev_color) (f4y prev_color) (f4z prev_color))
                   (lit 1 - t))
    else pixel_color in
  make_float4 (cr pixel_color) (cg pixel_color) (cb pixel_color) (lit 1).

(** The output buffer maps a cell index to its content.  Indices are
    relative to the pointer [output]; a negative index names memory in front
    of the buffer. *)
Definition store (output : Z -> float4 F) (index : Z) (cell : float4 F)
    : Z -> float4 F :=
  fun i => if (i =? index)%Z then cell else output i.

(** One thread of [renderKernel]; [width], [height] and [frame_count] are
    unsigned 32 bit values.  Where an [int] meets one of them the operation
    is unsigned: the bounds test compares [x] and [y] converted to unsigned,
    and [y * width + x] is an unsigned sum, which the declaration of
    [pixel_index] converts to [int]. *)
Definition renderKernel (st : Broadcast F Mat) (th : Thread)
    (output : Z -> float4 F) (width height frame_count : Z)
    : option (Z -> float4 F) :=
  let x := thread_x th in
  let y := thread_y th in
  if (width <=? wrap32 x)%Z || (height <=? wrap32 y)%Z then Some output
  else
    let pixel_index := to_int32 (wrap32 (y * width + x)) in
    let rand_state :=
      initRand th (wrap32 (frame_count * width * height + pixel_index)) in
    let (du, rand_state) := curand_uniform rand_state in
    let u := (of_int x + du) / of_int width in
    let (dv, rand_state) := curand_uniform rand_state in
    let v := (of_int y + dv) / of_int height in
    let ray := generateCameraRay st u v in
    match traceRay st ray rand_state 50 with
    | None => None
    | Some (pixel_color, _) =>
        Some (store output pixel_index
                (accumulate frame_count pixel_color (output pixel_index)))
    end.
End Kernel.

(** ** raytracer_kernel.cu: the host side upload *)

(** Modelled from the spec: [Camera.cuh] and [Scene.cuh] are absent from the
    sources.  The records list what [initializeGPUData] reads through the
    getters; a scene object is a sphere, a plane, or an object of another
    kind, told apart "by runtime type inspection". *)
Record Camera_t (F : Type) : Type := {
  getPosition : Vec3f_t F;
  getForward  : Vec3f_t F;
  getRight    : Vec3f_t F;
  getUp       : Vec3f_t F;
  getFov      : F;            (* [getSettings().fov], in degrees *)
  getWidth    : Z;
  getHeight   : Z
}.

Record Sphere_t (F Mat : Type) : Type := {
  getCenter           : Point3f_t F;
  getRadius           : F;
  sphere_getMaterial  : Mat;
  isEmissive          : bool;
  getEmissionColor    : Color_t F;
  getEmissionStrength : F
}.

Record Plane_t (F Mat : Type) : Type := {
  getPoint          : Point3f_t F;
  getNormal         : Vec3f_t F;
  plane_getMaterial : Mat
}.

Inductive ImplicitObject_t (F Mat : Type) : Type :=
| AsSphere (s : Sphere_t F Mat)
| AsPlane (p : Plane_t F Mat)
| OtherObject.
Arguments OtherObject {F Mat}.

Definition isSphere {F Mat : Type} (o : ImplicitObject_t F Mat) : bool :=
  match o with AsSphere _ => true | _ => false end.
Definition isPlane {F Mat : Type} (o : ImplicitObject_t F Mat) : bool :=
  match o with AsPlane _ => true | _ => false end.

(** A pointer is [None] when null.  [d_implicit_objects] points to the array
    of the scene's objects in device memory. *)
Record Scene_t (F Mat : Type) : Type := {
  implicit_object_count : Z;
  d_implicit_objects    : option (list (ImplicitObject_t F Mat))
}.

Definition is_null {A : Type} (p : option A) : bool :=
  match p with None => true | Some _ => false end.
(** The array behind a pointer that is not null. *)
Definition pointee {A : Type} (p : option (list A)) : list A :=
  match p with None => [] | Some l => l end.

Inductive cudaError_t : Type := cudaSuccess | cudaErrorInvalidValue.

Inductive exception : Type :=
| runtime_error (what : string)
| cuda_failure (code : cudaError_t).

(** Host code runs on the broadcast state and either returns or throws. *)
Inductive outcome (A : Type) : Type :=
| Returned (a : A)
| Thrown (e : exception).
Arguments Thrown {A} e.

Definition Host (S A : Type) : Type := S -> outcome A * S.

Definition ret {S A : Type} (a : A) : Host S A := fun s => (Returned a, s).
Definition throw {S A : Type} (e : exception) : Host S A :=
  fun s => (Thrown e, s).
Definition bind {S A B : Type} (m : Host S A) (k : A -> Host S B) : Host S B :=
  fun s =>
    match m s with
    | (Returned a, s') => k a s'
    | (Thrown e, s') => (Thrown e, s')
    end.
(** [try { m } catch (...) { h; throw; }] *)
Definition try_rethrow {S A : Type} (m : Host S A) (h : Host S unit) : Host S A :=
  fun s =>
    match m s with
    | (Returned a, s') => (Returned a, s')
    | (Thrown e, s') =>
        match h s' with
        | (Returned _, s'') => (Thrown e, s'')
        | (Thrown e', s'') => (Thrown e', s'')
        end
    end.

Declare Scope host_scope.
Delimit Scope host_scope with host.
Notation "x <- m ;; k" := (bind m (fun x => k))
  (at level 61, m at next level, right associativity) : host_scope.
Notation "m ;; k" := (bind m (fun _ => k))
  (at level 61, right associativity) : host_scope.

(** Modelled from the spec: the [CUDA_CHECK] macro of the absent [Error.cuh]
    turns a failed runtime call into an exception ("only the host-side
    bridge/upload path uses throwing error propagation"). *)
Definition CUDA_CHECK {S A : Type} (r : cudaError_t * A) : Host S A :=
  match r with
  | (cudaSuccess, a) => ret a
  | (code, _) => throw (cuda_failure code)
  end.

Section Upload.
Context {F Mat : Type} {ops : FloatOps F}.
Local Open Scope float_scope.

(** [cudaMemcpy] of [count] object pointers from the device array: the
    runtime refuses a copy that runs past the end of the source. *)
Definition cudaMemcpy_objects (src : list (ImplicitObject_t F Mat)) (count : Z)
    : cudaError_t * list (ImplicitObject_t F Mat) :=
  if (count <=? Z.of_nat (length src))%Z
  then (cudaSuccess, firstn (Z.to_nat count) src)
  else (cudaErrorInvalidValue, []).

(** [cudaMemcpyToSymbol] into one of the sixteen element arrays: the
    leading elements are overwritten; the runtime refuses a copy larger
    than the symbol and leaves the symbol as it was. *)
Definition cudaMemcpyToSymbol_array {A : Type} (symbol src : list A)
    : cudaError_t * list A :=
  if (length src <=? capacity)%nat
  then (cudaSuccess, src ++ skipn (length src) symbol)
  else (cudaErrorInvalidValue, symbol).

(** The five [cudaMemcpyToSymbol] calls.  None of them is wrapped in
    [CUDA_CHECK]: the returned status is dropped. *)
Definition publish_camera (c : GPUCamera F) : Host (Broadcast F Mat) unit :=
  fun st => (Returned tt,
             Build_Broadcast c (d_spheres st) (d_planes st)
               (d_num_spheres st) (d_num_planes st)).
Definition publish_num_spheres (n : Z) : Host (Broadcast F Mat) unit :=
  fun st => (Returned tt,
             Build_Broadcast (d_camera st) (d_spheres st) (d_planes st)
               n (d_num_planes st)).
Definition publish_num_planes (n : Z) : Host (Broadcast F Mat) unit :=
  fun st => (Returned tt,
             Build_Broadcast (d_camera st) (d_spheres st) (d_planes st)
               (d_num_spheres st) n).
Definition publish_spheres (h : list (GPUSphere F Mat))
    : Host (Broadcast F Mat) unit :=
  fun st => (Returned tt,
             Build_Broadcast (d_camera st)
               (snd (cudaMemcpyToSymbol_array (d_spheres st) h))
               (d_planes st) (d_num_spheres st) (d_num_planes st)).
Definition publish_planes (h : list (GPUPlane F Mat))
    : Host (Broadcast F Mat) unit :=
  fun st => (Returned tt,
             Build_Broadcast (d_camera st) (d_spheres st)
               (snd (cudaMemcpyToSymbol_array (d_planes st) h))
               (d_num_spheres st) (d_num_planes st)).

Definition to_float3 (v : Vec3f_t F) : float3 F :=
  make_float3 (vx v) (vy v) (vz v).

Definition M_PI : Q := 3.14159265358979323846.

Definition to_GPUCamera (camera : Camera_t F) : GPUCamera F :=
  Build_GPUCamera
    (to_float3 (getPosition camera)) (to_float3 (getForward camera))
    (to_float3 (getRight camera)) (to_float3 (getUp camera))
    (getFov camera * lit M_PI / lit 180)
    (getWidth camera) (getHeight camera).

Definition to_GPUSphere (sphere : Sphere_t F Mat) : GPUSphere F Mat :=
  Build_GPUSphere
    (to_float3 (getCenter sphere)) (getRadius sphere)
    (sphere_getMaterial sphere) (isEmissive sphere)
    (if isEmissive sphere then
       let emission :=
         cscale (getEmissionColor sphere) (getEmissionStrength sphere) in
       make_float3 (cr emission) (cg emission) (cb emission)
     else make_float3 (lit 0) (lit 0) (lit 0)).

Definition to_GPUPlane (plane : Plane_t F Mat) : GPUPlane F Mat :=
  Build_GPUPlane (to_float3 (getPoint plane)) (to_float3 (getNormal plane))
    (plane_getMaterial plane).

(** The two conversion loops over [h_implicit_objects]. *)
Fixpoint collect_spheres (objs : list (ImplicitObject_t F Mat))
    : list (GPUSphere F Mat) :=
  match objs with
  | [] => []
  | AsSphere s :: rest => to_GPUSphere s :: collect_spheres rest
  | _ :: rest => collect_spheres rest
  end.

Fixpoint collect_planes (objs : list (ImplicitObject_t F Mat))
    : list (GPUPlane F Mat) :=
  match objs with
  | [] => []
  | AsPlane p :: rest => to_GPUPlane p :: collect_planes rest
  | _ :: rest => collect_planes rest
  end.

Local Open Scope host_scope.

(** [d_scene] is the scene handle; a handle that is not null is taken to
    point to a readable [Scene_t], so the first [cudaMemcpy] succeeds. *)
Definition initializeGPUData (camera : Camera_t F)
    (d_scene : option (Scene_t F Mat)) : Host (Broadcast F Mat) unit :=
  match d_scene with
  | None =>
      throw (runtime_error "Scene pointer is null in initializeGPUData")
  | Some scene =>
      h_scene <- CUDA_CHECK (cudaSuccess, scene) ;;
      publish_camera (to_GPUCamera camera) ;;
      if (implicit_object_count h_scene <=? 0)%Z
         || is_null (d_implicit_objects h_scene)
      then publish_num_spheres 0 ;; publish_num_planes 0 ;; ret tt
      else
        try_rethrow
          (h_implicit_objects <-
             CUDA_CHECK (cudaMemcpy_objects
                           (pointee (d_implicit_objects h_scene))
                           (implicit_object_count h_scene)) ;;
           let h_spheres := collect_spheres h_implicit_objects in
           let h_planes := collect_planes h_implicit_objects in
           let num_spheres := Z.of_nat (length h_spheres) in
           publish_num_spheres num_spheres ;;
           (if (0 <? num_spheres)%Z then publish_spheres h_spheres
            else ret tt) ;;
           let num_planes := Z.of_nat (length h_planes) in
           publish_num_planes num_planes ;;
           (if (0 <? num_planes)%Z then publish_planes h_planes
            else ret tt))
          (ret tt)
  end.
End Upload.

(** ** Exact rational arithmetic as an implementation of the interface

    [Qc] is the field of rationals in lowest terms, with decidable order.
    Sine, tangent and square root have no exact rational counterpart: the
    instance takes the first two terms of the series for the first two and the
    integer square root of numerator times denominator for the third (exact
    on squares of rationals). *)

Definition Qc_ltb (a b : Qc) : bool :=
  match (a ?= b)%Qc with Lt => true | _ => false end.
Definition Qc_floor (a : Qc) : Qc := Q2Qc (inject_Z (Qfloor a)).
Definition Qc_abs (a : Qc) : Qc := if Qc_ltb a (Q2Qc 0) then (- a)%Qc else a.
Definition Qc_max (a b : Qc) : Qc := if Qc_ltb a b then b else a.
Definition Qc_sqrt (a : Qc) : Qc :=
  Q2Qc (Z.sqrt (Qnum a * Zpos (Qden a)) # Qden a).
Definition Qc_sin (a : Qc) : Qc := (a - a * a * a / Q2Qc 6)%Qc.
Definition Qc_tan (a : Qc) : Qc := (a + a * a * a / Q2Qc 3)%Qc.

#[global] Instance Qc_ops : FloatOps Qc := {
  lit := Q2Qc;
  of_int := fun z => Q2Qc (inject_Z z);
  fadd := Qcplus;
  fsub := Qcminus;
  fmul := Qcmult;
  fdiv := Qcdiv;
  fopp := Qcopp;
  flt := Qc_ltb;
  sinf := Qc_sin;
  tanf := Qc_tan;
  sqrtf := Qc_sqrt;
  floorf := Qc_floor;
  fabsf := Qc_abs;
  fmaxf := Qc_max
}.

(** ** Single precision arithmetic with rounding

    The finite numbers of the binary32 format are the rationals [m * 2^e]
    with [|m| < 2^24] and [-149 <= e <= 104].  [binary32_round] maps a
    rational to the nearest of them, a tie going to the even significand:
    the rounding IEEE 754 prescribes for [+], [-], [*], [/] and for the
    conversion of literals and integers, each operation being rounded on its
    own, as the source writes it.  The carrier is [option Qc]; [None] stands
    for a value the instance does not follow: an overflow, a division by
    zero, anything computed from one of these, and the results of [sinf],
    [tanf] and [sqrtf].  The two zeros are not told apart. *)

(** The quotient [n / d] rounded to the nearest integer, a tie going to the
    even neighbour; [n] is not negative. *)
Definition round_half_even (n : Z) (d : positive) : Z :=
  let q := (n / Zpos d)%Z in
  match (2 * (n mod Zpos d) ?= Zpos d)%Z with
  | Lt => q
  | Gt => (q + 1)%Z
  | Eq => if Z.even q then q else (q + 1)%Z
  end.

(** [floor (log2 (n / d))] for a positive [n]. *)
Definition Q_log2 (n : Z) (d : positive) : Z :=
  let e := (Z.log2 n - Z.log2 (Zpos d))%Z in
  let below :=
    if (0 <=? e)%Z then (n <? Zpos d * 2 ^ e)%Z
    else (n * 2 ^ (- e) <? Zpos d)%Z in
  if below then (e - 1)%Z else e.

(** The significand has 24 bits, so a number with binary exponent
    [exponent] is rounded to a multiple of [2^(exponent - 23)]; below
    [2^-126] the spacing stays [2^-149]; a result of [2^128] or more has
    left the format. *)
Definition binary32_round (x : Qc) : option Qc :=
  let n := Z.abs (Qnum x) in
  let d := Qden x in
  if (n =? 0)%Z then Some (Q2Qc 0)
  else
    let exponent := Z.max (Q_log2 n d) (- 126) in
    let k := (23 - exponent)%Z in
    let magnitude :=
      if (0 <=? k)%Z then
        Q2Qc (round_half_even (n * 2 ^ k) d # Z.to_pos (2 ^ k))
      else
        Q2Qc (inject_Z
                (round_half_even n (d * Z.to_pos (2 ^ (- k))) * 2 ^ (- k))) in
    if Qc_ltb magnitude (Q2Qc (inject_Z (2 ^ 128))) then
      Some (if (Qnum x <? 0)%Z then (- magnitude)%Qc else magnitude)
    else None.

Definition binary32 : Type := option Qc.

Definition binary32_op (f : Qc -> Qc -> Qc) (a b : binary32) : binary32 :=
  match a, b with
  | Some x, Some y => binary32_round (f x y)
  | _, _ => None
  end.

Definition binary32_div (a b : binary32) : binary32 :=
  match a, b with
  | Some x, Some y =>
      if (Qnum y =? 0)%Z then None else binary32_round (x / y)%Qc
  | _, _ => None
  end.

Definition binary32_ltb (a b : binary32) : bool :=
  match a, b with
  | Some x, Some y => Qc_ltb x y
  | _, _ => false
  end.

Definition binary32_eqb (a b : binary32) : bool :=
  match a, b with
  | Some x, Some y => Qeq_bool x y
  | None, None => true
  | _, _ => false
  end.

Definition binary32_max (a b : binary32) : binary32 :=
  match a, b with
  | Some x, Some y => Some (Qc_max x y)
  | _, _ => None
  end.

Definition binary32_ops : FloatOps binary32 := {|
  lit := fun q => binary32_round (Q2Qc q);
  of_int := fun z => binary32_round (Q2Qc (inject_Z z));
  fadd := binary32_op Qcplus;
  fsub := binary32_op Qcminus;
  fmul := binary32_op Qcmult;
  fdiv := binary32_div;
  fopp := option_map Qcopp;
  flt := binary32_ltb;
  sinf := fun _ => None;
  tanf := fun _ => None;
  sqrtf := fun _ => None;
  floorf := option_map Qc_floor;
  fabsf := option_map Qc_abs;
  fmaxf := binary32_max
|}.

(** The colour whose three channels are the literal [0.8f], and the cell
    that holds it. *)
Definition grey_08 : Color_t binary32 :=
  Color1 (lit (FloatOps := binary32_ops) 0.8).

Definition grey_08_cell : float4 binary32 :=
  make_float4 (cr grey_08) (cg grey_08) (cb grey_08)
    (lit (FloatOps := binary32_ops) 1).

(** ** A small scene to run the kernel on

    Three materials stand in for the absent [Material.cuh]: a mirror
    (specular, reflects about the normal, attenuation one half), a diffuse
    surface (not specular, sends the path back along the normal, attenuation
    one half, both densities one) and a lamp (emits white, does not
    scatter).  The generator state is the list of the samples still to be
    drawn; an exhausted list keeps returning one. *)

Inductive DemoMaterial : Type := Mirror | Diffuse | Lamp | NullMaterial.

Definition reflect (v n : Vec3f_t Qc) : Vec3f_t Qc :=
  vsub v (vscale n (lit 2 * dot v n)%flt).

Definition demo_ray (o : Point3f_t Qc) (d : Vec3f_t Qc) (ty : RayType)
    : Ray_t Qc :=
  Build_Ray_t o d (lit 0.001) (lit 1000000) ty.

Definition demo_isValidDistance (ray : Ray_t Qc) (t : Qc) : bool :=
  (t_min ray <? t)%flt && (t <? t_max ray)%flt.

Definition demo_scatter (m : DemoMaterial) (ray : Ray_t Qc)
    (isect : Intersection_t Qc DemoMaterial) (rand : list Qc)
    : option (ScatterRecord_t Qc) * list Qc :=
  match m with
  | Mirror =>
      (Some (Build_ScatterRecord_t (Color1 (lit 0.5))
               (demo_ray (point isect)
                  (reflect (direction ray) (normal isect)) SECONDARY)
               (lit 1) true), rand)
  | Diffuse =>
      (Some (Build_ScatterRecord_t (Color1 (lit 0.5))
               (demo_ray (point isect) (normal isect) SECONDARY)
               (lit 1) false), rand)
  | Lamp | NullMaterial => (None, rand)
  end.

#[global] Instance demo_env : KernelEnv Qc DemoMaterial (list Qc) := {
  FLOAT_MAX := lit 340282346638528859811704183484516925440;
  Ray_ctor := demo_ray;
  isValidDistance := demo_isValidDistance;
  Intersection_ctor :=
    Build_Intersection_t (Vec3 (lit 0) (lit 0) (lit 0))
      (Vec3 (lit 0) (lit 0) (lit 0)) (lit 0) (Color1 (lit 0)) false
      (Color1 (lit 0)) false NullMaterial;
  emitted := fun m _ _ =>
    match m with Lamp => Color1 (lit 1) | _ => Color1 (lit 0) end;
  scatter := demo_scatter;
  scatteringPdf := fun _ _ _ _ => lit 1;
  curand_init := fun _ => [];
  curand_uniform := fun rand =>
    match rand with
    | [] => (lit 1, [])
    | u :: rest => (u, rest)
    end
}.

Definition demo_camera : GPUCamera Qc :=
  Build_GPUCamera
    (make_float3 (lit 0) (lit 0) (lit 0)) (make_float3 (lit 0) (lit 0) (lit 1))
    (make_float3 (lit 1) (lit 0) (lit 0)) (make_float3 (lit 0) (lit 1) (lit 0))
    (lit 1) 4 4.

Definition plane_at (z nz : Q) (m : DemoMaterial) : GPUPlane Qc DemoMaterial :=
  Build_GPUPlane (make_float3 (lit 0) (lit 0) (lit z))
    (make_float3 (lit 0) (lit 0) (lit nz)) m.

Definition sphere_at (z rad : Q) (m : DemoMaterial) : GPUSphere Qc DemoMaterial :=
  Build_GPUSphere (make_float3 (lit 0) (lit 0) (lit z)) (lit rad) m false
    (make_float3 (lit 0) (lit 0) (lit 0)).

(** Sixteen elements, as the declarations of the symbols have. *)
Definition pad {A : Type} (filler : A) (l : list A) : list A :=
  l ++ repeat filler (capacity - length l).

(** Two facing planes at [z = 5] and [z = -5] of material [m]. *)
Definition corridor (m : DemoMaterial) : Broadcast Qc DemoMaterial :=
  Build_Broadcast demo_camera
    (pad (sphere_at 0 1 NullMaterial) [])
    (pad (plane_at 0 1 NullMaterial) [plane_at 5 (-1) m; plane_at (-5) 1 m])
    0 2.

(** The ray from the origin along the [z] axis. *)
Definition axis_ray : Ray_t Qc :=
  demo_ray (Vec3 (lit 0) (lit 0) (lit 0)) (Vec3 (lit 0) (lit 0) (lit 1)) PRIMARY.

(** ** Vocabulary of the statements *)

Section Vocabulary.
Context {F Mat Rand : Type} {ops : FloatOps F} {env : KernelEnv F Mat Rand}.
Local Open Scope float_scope.

(** The records [intersectScene] compares, in scan order: the spheres
    [d_spheres[0 .. d_num_spheres)], then the planes
    [d_planes[0 .. d_num_planes)]. *)
Definition scene_candidates (st : Broadcast F Mat) (ray : Ray_t F)
    : list (Intersection_t F Mat) :=
  map (intersectSphere ray) (firstn (Z.to_nat (d_num_spheres st)) (d_spheres st))
  ++ map (intersectPlane ray) (firstn (Z.to_nat (d_num_planes st)) (d_planes st)).

(** A record takes part in the comparison when it is a hit and lies below
    the starting value [FLOAT_MAX] of [closest_dist]. *)
Definition qualifies (c : Intersection_t F Mat) : bool :=
  hit c && (distance c <? FLOAT_MAX).

(** The outward normal of a sphere at the point a ray reaches at distance
    [root]. *)
Definition outward_at (ray : Ray_t F) (sphere : GPUSphere F Mat) (root : F)
    : Vec3f_t F :=
  vdivs (vsub (Ray_at ray root) (Vec3_fromFloat3 (center sphere)))
        (radius sphere).

(** The record [intersectScene] starts from. *)
Definition no_hit : Intersection_t F Mat := set_hit false Intersection_ctor.

(** What holds of the pair [(closest_dist, closest_hit)] after the records
    in [seen] have been compared. *)
Definition nearest_so_far (seen : list (Intersection_t F Mat))
    (best : F * Intersection_t F Mat) : Prop :=
  (snd best = no_hit /\ fst best = FLOAT_MAX /\
   forall c, In c seen -> qualifies c = false)
  \/
  (exists k,
     nth_error seen k = Some (snd best) /\
     qualifies (snd best) = true /\
     fst best = distance (snd best) /\
     (forall j c, nth_error seen j = Some c -> qualifies c = true ->
                  (distance c <? distance (snd best)) = false) /\
     (forall j c, (j < k)%nat -> nth_error seen j = Some c ->
                  qualifies c = true ->
                  (distance (snd best) <? distance c) = true)).
(** The roulette step in the words of the spec: "let p = max(throughput.r,
    throughput.g, throughput.b); draw a uniform sample; terminate if the
    sample exceeds p; otherwise divide throughput by p".  [None] stands for
    termination; the division is the product with the reciprocal. *)
Definition russian_roulette (throughput : Color_t F) (rand : Rand)
    : option (Color_t F) * Rand :=
  let p := max_channel throughput in
  let (u, rand') := curand_uniform rand in
  if u >? p then (None, rand')
  else (Some (cscale throughput (lit 1 / p)), rand').

(** The throughput after a bounce that is not specular, before any
    roulette. *)
Definition diffuse_throughput (s : @PathState F Rand) (isect : Intersection_t F Mat)
    (srec : ScatterRecord_t F) : Color_t F :=
  cmul (ps_throughput s)
       (cscale (cscale (attenuation srec)
                  (scatteringPdf (material isect) (scattered_ray srec) isect
                                 (scattered_ray srec)))
               (lit 1 / pdf srec)).

(** The radiance after the emitted light of the hit has been added. *)
Definition radiance_after_hit (s : @PathState F Rand) (isect : Intersection_t F Mat)
    : Color_t F :=
  cadd (ps_final_color s)
       (cmul (ps_throughput s) (emitted (material isect) (ps_ray s) isect)).
End Vocabulary.

(** ** Inputs for the runs *)

(** The state of a path when bounce 4 begins, after four bounces along the
    axis of the corridor. *)
Definition path_start (rand : list Qc) : @PathState Qc (list Qc) :=
  Build_PathState axis_ray (Color1 (lit 0)) (Color1 (lit 1)) rand.

Definition state_at_bounce_4 (m : DemoMaterial) (rand : list Qc)
    : @PathState Qc (list Qc) :=
  match traceRay_loop (corridor m) 4 0 (path_start rand) with
  | Some s => s
  | None => path_start rand
  end.

(** No objects published; the arrays still hold sixteen elements each. *)
Definition empty_scene : Broadcast Qc DemoMaterial :=
  Build_Broadcast demo_camera
    (pad (sphere_at 0 1 NullMaterial) [])
    (pad (plane_at 0 1 NullMaterial) []) 0 0.

(** Two spheres on the axis and a plane behind them; the near sphere and a
    second sphere touch the ray at the same distance. *)
Definition three_objects : Broadcast Qc DemoMaterial :=
  Build_Broadcast demo_camera
    (pad (sphere_at 0 1 NullMaterial)
       [sphere_at 10 2 Diffuse; sphere_at 6 2 Mirror; sphere_at 7 3 Lamp])
    (pad (plane_at 0 1 NullMaterial) [plane_at 20 (-1) Diffuse])
    3 1.

Definition host_camera : Camera_t Qc :=
  Build_Camera_t (Vec3 (lit 0) (lit 0) (lit 0)) (Vec3 (lit 0) (lit 0) (lit 1))
    (Vec3 (lit 1) (lit 0) (lit 0)) (Vec3 (lit 0) (lit 1) (lit 0))
    (lit 60) 4 4.

Definition host_sphere (z : Z) : ImplicitObject_t Qc DemoMaterial :=
  AsSphere (Build_Sphere_t (Vec3 (lit 0) (lit 0) (of_int z)) (lit 1) Diffuse
              false (Color1 (lit 0)) (lit 0)).

Definition host_lamp : Sphere_t Qc DemoMaterial :=
  Build_Sphere_t (Vec3 (lit 0) (lit 3) (lit 0)) (lit 1) Lamp
    true (Color (lit 1) (lit 0.5) (lit 0.25)) (lit 4).

Definition host_plane : ImplicitObject_t Qc DemoMaterial :=
  AsPlane (Build_Plane_t (Vec3 (lit 0) (lit (-1)) (lit 0))
             (Vec3 (lit 0) (lit 1) (lit 0)) Diffuse).

(** Seventeen spheres: one more than a symbol holds. *)
Definition crowded_scene : Scene_t Qc DemoMaterial :=
  Build_Scene_t 17 (Some (map host_sphere
    [1; 2; 3; 4; 5; 6; 7; 8; 9; 10; 11; 12; 13; 14; 15; 16; 17]%Z)).

Definition small_scene : Scene_t Qc DemoMaterial :=
  Build_Scene_t 3 (Some [host_sphere 5; host_plane; AsSphere host_lamp]).

(** One diffuse sphere of radius one at the origin, and a ray that starts at
    [z = -5] and points away from it. *)
Definition lone_sphere : Broadcast Qc DemoMaterial :=
  Build_Broadcast demo_camera
    (pad (sphere_at 0 1 NullMaterial) [sphere_at 0 1 Diffuse])
    (pad (plane_at 0 1 NullMaterial) []) 1 0.

Definition ray_aimed_away : Ray_t Qc :=
  demo_ray (Vec3 (lit 0) (lit 0) (lit (-5))) (Vec3 (lit 0) (lit 0) (lit (-1)))
    PRIMARY.

Definition scene_without_objects : Scene_t Qc DemoMaterial :=
  Build_Scene_t 0 (Some []).

(** ** Laws an implementation of the interface may satisfy *)

(** The operations form a field, with [1 / x] as the inverse.  No rounding
    takes place in such an implementation. *)
Definition exact_field {F : Type} (ops : FloatOps F) : Prop :=
  field_theory (lit 0) (lit 1) fadd fmul fsub fopp fdiv
    (fun x => fdiv (lit 1) x) eq.

(** The comparison is a strict order in which incomparable values are
    interchangeable, as [<] is on numbers (NaN excluded). *)
Record strict_order {F : Type} (ops : FloatOps F) : Prop := {
  flt_irrefl : forall a, flt a a = false;
  flt_trans : forall a b c, flt a b = true -> flt b c = true -> flt a c = true;
  flt_below : forall a b c, flt a b = true -> flt c b = false -> flt a c = true
}.

(** Adding the same value on both sides does not change a comparison. *)
Definition translation_invariant {F : Type} (ops : FloatOps F) : Prop :=
  forall a b c, flt (fadd c a) (fadd c b) = flt a b.

(** ** Further vocabulary: the plane test *)

Section PlaneVocabulary.
Context {F Mat Rand : Type} {ops : FloatOps F} {env : KernelEnv F Mat Rand}.
Local Open Scope float_scope.

(** The denominator and the distance [intersectPlane] computes. *)
Definition plane_denom (ray : Ray_t F) (plane : GPUPlane F Mat) : F :=
  dot (Vec3_fromFloat3 (pl_normal plane)) (direction ray).

Definition plane_distance (ray : Ray_t F) (plane : GPUPlane F Mat) : F :=
  dot (vsub (Vec3_fromFloat3 (pl_point plane)) (origin ray))
      (Vec3_fromFloat3 (pl_normal plane))
  / plane_denom ray plane.
End PlaneVocabulary.

(** ** Further vocabulary: the broadcast state *)

(** The published counts lie within the arrays. *)
Definition within_arrays {F Mat : Type} (st : Broadcast F Mat) : Prop :=
  (Z.to_nat (d_num_spheres st) <= length (d_spheres st))%nat /\
  (Z.to_nat (d_num_planes st) <= length (d_planes st))%nat.

(** ** Further vocabulary: the render kernel *)

Section RenderVocabulary.
Context {F Mat Rand : Type} {ops : FloatOps F} {env : KernelEnv F Mat Rand}.
Local Open Scope float_scope.

(** The cell of the output buffer a thread of [renderKernel] writes: the
    [int] variable [pixel_index]. *)
Definition pixel_index (th : Thread) (width : Z) : Z :=
  to_int32 (wrap32 (thread_y th * width + thread_x th)).

(** The value [renderKernel] makes [initRand] hand to [curand_init]. *)
Definition thread_seed (th : Thread) (width height frame_count : Z) : Z :=
  wrap32 (wrap32 (frame_count * width * height + pixel_index th width)
          + wrap32 (thread_y th * thread_row th + thread_x th)).

(** The colour a thread of [renderKernel] traces, before the accumulation:
    the statements of the kernel between the bounds test and the blend. *)
Definition thread_sample (st : Broadcast F Mat) (th : Thread)
    (width height frame_count : Z) : option (Color_t F) :=
  let x := thread_x th in
  let y := thread_y th in
  let rand_state := curand_init (thread_seed th width height frame_count) in
  let (du, rand_state) := curand_uniform rand_state in
  let u := (of_int x + du) / of_int width in
  let (dv, rand_state) := curand_uniform rand_state in
  let v := (of_int y + dv) / of_int height in
  option_map fst (traceRay st (generateCameraRay st u v) rand_state 50).

(** A thread lies inside the image. *)
Definition in_image (th : Thread) (width height : Z) : Prop :=
  (0 <= thread_x th < width)%Z /\ (0 <= thread_y th < height)%Z.

(** The values an [int] takes. *)
Definition is_int (z : Z) : Prop := (- 2 ^ 31 <= z < 2 ^ 31)%Z.

(** The threads of a launch, run one after the other in the order of the
    list; [launchRenderKernel] starts one [renderKernel] per thread of the
    grid and fixes no order. *)
Fixpoint run_threads (st : Broadcast F Mat) (ths : list Thread)
    (output : Z -> float4 F) (width height frame_count : Z)
    : option (Z -> float4 F) :=
  match ths with
  | [] => Some output
  | th :: rest =>
      match renderKernel st th output width height frame_count with
      | None => None
      | Some output' => run_threads st rest output' width height frame_count
      end
  end.

(** Successive frames of one pixel: the samples are blended into the cell
    with frame counts [frame_count], [frame_count + 1], ... *)
Fixpoint accumulate_frames (frame_count : Z) (samples : list (Color_t F))
    (cell : float4 F) : float4 F :=
  match samples with
  | [] => cell
  | c :: rest =>
      accumulate_frames (frame_count + 1) rest (accumulate frame_count c cell)
  end.

(** The sum of a list of colours, channel by channel. *)
Definition color_sum (samples : list (Color_t F)) : Color_t F :=
  fold_left cadd samples (Color1 (lit 0)).
End RenderVocabulary.

(** The conversion of integers agrees with the arithmetic: it maps sums to
    sums, one to one, and no positive integer to zero. *)
Record integer_embedding {F : Type} (ops : FloatOps F) : Prop := {
  of_int_one : of_int 1 = lit 1;
  of_int_add : forall a b, of_int (a + b) = fadd (of_int a) (of_int b);
  of_int_pos : forall n, (0 < n)%Z -> of_int n <> lit 0
}.

(** The cell that holds the colour [total / count] and the fourth component
    one. *)
Definition mean_cell {F : Type} {ops : FloatOps F} (total : Color_t F)
    (count : F) : float4 F :=
  make_float4 (fdiv (cr total) count) (fdiv (cg total) count)
    (fdiv (cb total) count) (lit 1).

(** ** Further vocabulary: the upload *)

(** The four ways an upload can go. *)
Inductive upload_case {F Mat : Type} (d_scene : option (Scene_t F Mat))
    : Prop :=
| upload_null :
    d_scene = None -> upload_case d_scene
| upload_degenerate (scene : Scene_t F Mat) :
    d_scene = Some scene ->
    (implicit_object_count scene <= 0)%Z \/ d_implicit_objects scene = None ->
    upload_case d_scene
| upload_failed_copy (scene : Scene_t F Mat)
    (device_objects : list (ImplicitObject_t F Mat)) :
    d_scene = Some scene ->
    d_implicit_objects scene = Some device_objects ->
    (0 < implicit_object_count scene)%Z ->
    (Z.of_nat (length device_objects) < implicit_object_count scene)%Z ->
    upload_case d_scene
| upload_objects (scene : Scene_t F Mat)
    (device_objects : list (ImplicitObject_t F Mat)) :
    d_scene = Some scene ->
    d_implicit_objects scene = Some device_objects ->
    (0 < implicit_object_count scene
     <= Z.of_nat (length device_objects))%Z ->
    upload_case d_scene.

(** ** AgingEffects.cuh: the default parameters

    The default member initialisers of the two parameter structs; [padding]
    has none and is zero after the value initialisation [RustParameters()]
    that [resetParameters] performs. *)

Definition RustParameters_default {F : Type} {ops : FloatOps F}
    : RustParameters F :=
  Build_RustParameters (lit 0) (lit 0) (lit 1) (lit 0)
    (Color (lit 0.6) (lit 0.2) (lit 0.1)).

Definition PaintAgingParameters_default {F : Type} {ops : FloatOps F}
    : PaintAgingParameters F :=
  Build_PaintAgingParameters (lit 0) (lit 0) (lit 0) (lit 0)
    (Color1 (lit 0.3)).

(** The floor of a value is not above the value. *)
Definition floor_below {F : Type} (ops : FloatOps F) : Prop :=
  forall x, flt (fsub x (floorf x)) (lit 0) = false.

(** ** The parameter window (class [AgingUI])

    The state the class keeps besides its X11 handles, and the methods that
    change it.  The drawing methods ([render], [drawSliders], [drawSlider],
    [drawLabels]) only issue X11 requests and are not part of the
    embedding. *)

Definition WINDOW_WIDTH : Z := 300.
Definition WINDOW_HEIGHT : Z := 400.
Definition SLIDER_HEIGHT : Z := 20.
Definition SLIDER_WIDTH : Z := 200.
Definition MARGIN : Z := 10.

Record AgingUI (F : Type) : Type := {
  rust_params      : RustParameters F;
  paint_params     : PaintAgingParameters F;
  show_window      : bool;
  slider_positions : list F;      (* float slider_positions[8] *)
  dragging         : list bool    (* bool dragging[8] *)
}.

(** The events [processEvent] tells apart, with the pointer position the
    handlers read. *)
Inductive XEvent : Type :=
| ButtonPress (x y : Z)
| ButtonRelease (x y : Z)
| MotionNotify (x y : Z)
| OtherEvent.

(** [a[i] = v].  An index outside the array has no defined effect in the
    source; the model leaves the array as it is. *)
Fixpoint array_set {A : Type} (a : list A) (i : nat) (v : A) : list A :=
  match a, i with
  | [], _ => []
  | _ :: rest, O => v :: rest
  | x :: rest, S i' => x :: array_set rest i' v
  end.

Definition array_write {A : Type} (a : list A) (i : Z) (v : A) : list A :=
  if (i <? 0)%Z then a else array_set a (Z.to_nat i) v.

Definition array_read {A : Type} (a : list A) (i : Z) : option A :=
  if (i <? 0)%Z then None else nth_error a (Z.to_nat i).

Section AgingUIMethods.
Context {F : Type} {ops : FloatOps F}.
Local Open Scope float_scope.

(** [std::min] and [std::max] on [float]. *)
Definition std_min (a b : F) : F := if b <? a then b else a.
Definition std_max (a b : F) : F := if a <? b then b else a.

Definition with_sliders (ui : AgingUI F) (s : list F) : AgingUI F :=
  Build_AgingUI (rust_params ui) (paint_params ui) (show_window ui) s
    (dragging ui).
Definition with_dragging (ui : AgingUI F) (d : list bool) : AgingUI F :=
  Build_AgingUI (rust_params ui) (paint_params ui) (show_window ui)
    (slider_positions ui) d.
Definition with_rust (ui : AgingUI F) (r : RustParameters F) : AgingUI F :=
  Build_AgingUI r (paint_params ui) (show_window ui) (slider_positions ui)
    (dragging ui).
Definition with_paint (ui : AgingUI F) (p : PaintAgingParameters F)
    : AgingUI F :=
  Build_AgingUI (rust_params ui) p (show_window ui) (slider_positions ui)
    (dragging ui).

Definition resetParameters (ui : AgingUI F) : AgingUI F :=
  let ui := with_rust ui RustParameters_default in
  let ui := with_paint ui PaintAgingParameters_default in
  let s := slider_positions ui in
  let s := array_write s 0 (oxidation_level (rust_params ui)) in
  let s := array_write s 1 (surface_roughness (rust_params ui)) in
  let s := array_write s 2 (pattern_scale (rust_params ui) / lit 10) in
  let s := array_write s 3 (peeling_amount (paint_params ui)) in
  let s := array_write s 4 (crack_density (paint_params ui)) in
  let s := array_write s 5 (weathering (paint_params ui)) in
  with_sliders ui s.

(** The constructor, without its X11 calls: [show_window] is true, no
    slider is dragged, the slider array starts with whatever [uninit] holds
    and [resetParameters] fills its first six elements. *)
Definition AgingUI_ctor (uninit : list F) : AgingUI F :=
  resetParameters
    (Build_AgingUI RustParameters_default PaintAgingParameters_default true
       uninit (repeat false 8)).

Definition getRustParams (ui : AgingUI F) : RustParameters F := rust_params ui.
Definition getPaintParams (ui : AgingUI F) : PaintAgingParameters F :=
  paint_params ui.

(** The value a pointer position [x] stands for, clamped to [0, 1]. *)
Definition slider_value (x : Z) : F :=
  let value := of_int (x - MARGIN) / of_int SLIDER_WIDTH in
  std_max (lit 0) (std_min (lit 1) value).

Definition updateSliderValue (ui : AgingUI F) (index x : Z) : AgingUI F :=
  let value := slider_value x in
  let ui := with_sliders ui (array_write (slider_positions ui) index value) in
  let r := rust_params ui in
  let p := paint_params ui in
  match index with
  | 0%Z => with_rust ui
             (Build_RustParameters value (surface_roughness r)
                (pattern_scale r) (rust_padding r) (rust_color r))
  | 1%Z => with_rust ui
             (Build_RustParameters (oxidation_level r) value
                (pattern_scale r) (rust_padding r) (rust_color r))
  | 2%Z => with_rust ui
             (Build_RustParameters (oxidation_level r) (surface_roughness r)
                (value * lit 10) (rust_padding r) (rust_color r))
  | 3%Z => with_paint ui
             (Build_PaintAgingParameters value (crack_density p)
                (weathering p) (paint_padding p) (underlay_color p))
  | 4%Z => with_paint ui
             (Build_PaintAgingParameters (peeling_amount p) value
                (weathering p) (paint_padding p) (underlay_color p))
  | 5%Z => with_paint ui
             (Build_PaintAgingParameters (peeling_amount p) (crack_density p)
                value (paint_padding p) (underlay_color p))
  | _ => ui
  end.

Definition isClickOnSlider (x y slider_index : Z) : bool :=
  let slider_y := (MARGIN + slider_index * (SLIDER_HEIGHT + MARGIN))%Z in
  let slider_y :=
    if (3 <=? slider_index)%Z then (slider_y + MARGIN * 2)%Z else slider_y in
  (MARGIN <=? x)%Z && (x <=? MARGIN + SLIDER_WIDTH)%Z
  && (slider_y <=? y)%Z && (y <=? slider_y + SLIDER_HEIGHT)%Z.

(** The indices the three handlers loop over: [for (i = 0; i < 6; i++)]. *)
Definition slider_indices : list Z := [0; 1; 2; 3; 4; 5]%Z.

Definition handleMousePress (ui : AgingUI F) (x y : Z) : AgingUI F :=
  fold_left
    (fun ui i =>
       if isClickOnSlider x y i then
         updateSliderValue (with_dragging ui (array_write (dragging ui) i true))
           i x
       else ui)
    slider_indices ui.

Definition handleMouseRelease (ui : AgingUI F) : AgingUI F :=
  fold_left (fun ui i => with_dragging ui (array_write (dragging ui) i false))
    slider_indices ui.

Definition handleMouseMotion (ui : AgingUI F) (x : Z) : AgingUI F :=
  fold_left
    (fun ui i =>
       match array_read (dragging ui) i with
       | Some true => updateSliderValue ui i x
       | _ => ui
       end)
    slider_indices ui.

Definition processEvent (ui : AgingUI F) (event : XEvent) : AgingUI F :=
  match event with
  | ButtonPress x y => handleMousePress ui x y
  | ButtonRelease _ _ => handleMouseRelease ui
  | MotionNotify x _ => handleMouseMotion ui x
  | OtherEvent => ui
  end.

(** A value lies in the closed interval from zero to one. *)
Definition in_unit_interval (v : F) : Prop :=
  (v <? lit 0) = false /\ (lit 1 <? v) = false.

(** What the window keeps true of itself: both arrays have eight elements,
    five parameters are the values of their sliders and lie in the unit
    interval, and the pattern scale is its default or ten times the value
    of its slider. *)
Record ui_consistent (ui : AgingUI F) : Prop := {
  sliders_eight : length (slider_positions ui) = 8%nat;
  dragging_eight : length (dragging ui) = 8%nat;
  oxidation_slider :
    array_read (slider_positions ui) 0 = Some (oxidation_level (rust_params ui));
  roughness_slider :
    array_read (slider_positions ui) 1
    = Some (surface_roughness (rust_params ui));
  peeling_slider :
    array_read (slider_positions ui) 3 = Some (peeling_amount (paint_params ui));
  crack_slider :
    array_read (slider_positions ui) 4 = Some (crack_density (paint_params ui));
  weathering_slider :
    array_read (slider_positions ui) 5 = Some (weathering (paint_params ui));
  oxidation_range : in_unit_interval (oxidation_level (rust_params ui));
  roughness_range : in_unit_interval (surface_roughness (rust_params ui));
  peeling_range : in_unit_interval (peeling_amount (paint_params ui));
  crack_range : in_unit_interval (crack_density (paint_params ui));
  weathering_range : in_unit_interval (weathering (paint_params ui));
  pattern_scale_range :
    pattern_scale (rust_params ui) = lit 1 \/
    exists v, in_unit_interval v /\
              array_read (slider_positions ui) 2 = Some v /\
              pattern_scale (rust_params ui) = v * lit 10
}.
End AgingUIMethods.

(** The parameter slider [i] of the window drives. *)
Definition ui_parameter {F : Type} (ui : AgingUI F) (i : Z) : option F :=
  match i with
  | 0%Z => Some (oxidation_level (rust_params ui))
  | 1%Z => Some (surface_roughness (rust_params ui))
  | 2%Z => Some (pattern_scale (rust_params ui))
  | 3%Z => Some (peeling_amount (paint_params ui))
  | 4%Z => Some (crack_density (paint_params ui))
  | 5%Z => Some (weathering (paint_params ui))
  | _ => None
  end.

(** * Properties *)

Lemma Qc_ltb_lt (a b : Qc) : Qc_ltb a b = true <-> (a < b)%Qc.
Proof.
  unfold Qc_ltb, Qclt, Qccompare. rewrite Qlt_alt.
  destruct (a ?= b)%Q; split; intros H; try reflexivity; discriminate H.
Qed.

Lemma Qc_ltb_ge (a b : Qc) : Qc_ltb a b = false <-> (b <= a)%Qc.
Proof.
  split; intros H.
  - apply Qcnot_lt_le. intros L. apply Qc_ltb_lt in L. congruence.
  - destruct (Qc_ltb a b) eqn:E; [|reflexivity].
    apply Qc_ltb_lt in E. exfalso. exact (Qcle_not_lt _ _ H E).
Qed.

Lemma Qc_exact_field : exact_field Qc_ops.
Proof.
  unfold exact_field; simpl. constructor.
  - exact Qcrt.
  - exact (F_1_neq_0 Qcft).
  - intros p q. unfold Qcdiv. ring.
  - intros p Hp. unfold Qcdiv. rewrite Qcmult_1_l. apply Qcmult_inv_l. exact Hp.
Qed.

Lemma Qc_strict_order : strict_order Qc_ops.
Proof.
  constructor; simpl.
  - intros a. apply Qc_ltb_ge. apply Qcle_refl.
  - intros a b c H1 H2. apply Qc_ltb_lt in H1, H2. apply Qc_ltb_lt.
    exact (Qclt_trans _ _ _ H1 H2).
  - intros a b c H1 H2. apply Qc_ltb_lt in H1. apply Qc_ltb_ge in H2.
    apply Qc_ltb_lt. exact (Qclt_le_trans _ _ _ H1 H2).
Qed.

(** ** AgingEffects.cu: the noise field *)

(** C10.  The value of [noise] depends on the componentwise floor of the
    point only: two points whose coordinates have equal floors get the same
    value, and that value is
    [hash (hash (floor x) + hash (floor y) * 57 + hash (floor z) * 113)];
    the smoothed fractional offsets do not enter it. *)
Theorem noise_constant_on_lattice_cell
    {F : Type} {ops : FloatOps F} (p q : Point3f_t F) :
  floorf (vx p) = floorf (vx q) ->
  floorf (vy p) = floorf (vy q) ->
  floorf (vz p) = floorf (vz q) ->
  noise p = noise q /\
  noise p = hash (fadd (fadd (hash (floorf (vx p)))
                             (fmul (hash (floorf (vy p))) (lit 57)))
                       (fmul (hash (floorf (vz p))) (lit 113))).
Proof.
  intros Hx Hy Hz. unfold noise; cbn [vx vy vz].
  rewrite Hx, Hy, Hz. split; reflexivity.
Qed.

Lemma noise_constant_on_lattice_cell_witness :
  noise (Vec3 (Q2Qc 0.25) (Q2Qc 1.5) (Q2Qc 2.75))
  = noise (Vec3 (Q2Qc 0.5) (Q2Qc 1.25) (Q2Qc 2.5)).
Proof.
  apply (noise_constant_on_lattice_cell
           (Vec3 (Q2Qc 0.25) (Q2Qc 1.5) (Q2Qc 2.75))
           (Vec3 (Q2Qc 0.5) (Q2Qc 1.25) (Q2Qc 2.5)));
    vm_compute; reflexivity.
Defined.

(** ** Consequences of the laws *)

Lemma flt_asym {F : Type} {ops : FloatOps F} (Hord : strict_order ops) (a b : F) :
  flt a b = true -> flt b a = false.
Proof.
  intros Hab. destruct (flt b a) eqn:Hba; [|reflexivity].
  rewrite <- (flt_irrefl Hord a). symmetry.
  exact (flt_trans Hord _ _ _ Hab Hba).
Qed.

Section ExactArithmetic.
Context {F : Type} {ops : FloatOps F}.
Hypothesis Ffield :
  field_theory (lit 0) (lit 1) fadd fmul fsub fopp fdiv
    (fun x => fdiv (lit 1) x) eq.
Local Open Scope float_scope.

Add Field float_field : Ffield.

Lemma fsub_zero (a : F) : a - lit 0 = a.
Proof. ring. Qed.

Lemma fadd_zero (a : F) : a + lit 0 = a.
Proof. ring. Qed.

Lemma fmul_zero (a : F) : a * lit 0 = lit 0.
Proof. ring. Qed.

Lemma fdiv_one_one : lit 1 / lit 1 = lit 1.
Proof. field. exact (F_1_neq_0 Ffield). Qed.

Lemma lerp_zero (a b : Color_t F) : lerp a b (lit 0) = a.
Proof. destruct a; unfold lerp, cadd, cscale; cbn. f_equal; ring. Qed.

Lemma cscale_one (a : Color_t F) : cscale a (lit 1) = a.
Proof. destruct a; unfold cscale; cbn. f_equal; ring. Qed.

(** A convex combination of a colour with itself is that colour, for any
    weight. *)
Lemma blend_same (c : Color_t F) (t : F) :
  cadd (cscale c t) (cscale c (lit 1 - t)) = c.
Proof. destruct c; unfold cadd, cscale; cbn. f_equal; ring. Qed.
End ExactArithmetic.

(** ** AgingEffects.cu: the two colour transforms *)

(** C8.  With [oxidation_level = 0] the rust effect returns the base colour
    unchanged, whatever the base colour, the world point, [pattern_scale] and
    the other parameters, and the noise sample handed in by the caller.
    Stated for exact arithmetic. *)
Theorem applyRustEffect_oxidation_zero
    {F : Type} {ops : FloatOps F} (Ffield : exact_field ops)
    (base_color : Color_t F) (point : Point3f_t F)
    (params : RustParameters F) (noise_value : F) :
  oxidation_level params = lit 0 ->
  applyRustEffect base_color point params noise_value = base_color.
Proof.
  intros H0. unfold applyRustEffect. rewrite H0.
  rewrite (fmul_zero Ffield), (lerp_zero Ffield), (fmul_zero Ffield).
  rewrite (fadd_zero Ffield).
  rewrite (fdiv_one_one Ffield). apply (cscale_one Ffield).
Qed.

Lemma applyRustEffect_oxidation_zero_witness :
  applyRustEffect (Color (Q2Qc 0.8) (Q2Qc 0.4) (Q2Qc 0.2))
    (Vec3 (Q2Qc 1.5) (Q2Qc (-2.25)) (Q2Qc 7))
    (Build_RustParameters (Q2Qc 0) (Q2Qc 0.5) (Q2Qc 3) (Q2Qc 0)
       (Color (Q2Qc 0.6) (Q2Qc 0.2) (Q2Qc 0.1)))
    (Q2Qc 0.9)
  = Color (Q2Qc 0.8) (Q2Qc 0.4) (Q2Qc 0.2).
Proof.
  apply (applyRustEffect_oxidation_zero Qc_exact_field). reflexivity.
Defined.

(** C9.  With [peeling_amount = 0] and a noise sample below one, the peel
    branch is not taken: the threshold is one, [peel_factor] is zero, and the
    result is the weathered base colour (darkened once more where a crack is
    drawn); the underlay colour does not enter it.  Stated for exact
    arithmetic with a strict order. *)
Theorem applyPaintAging_no_peel
    {F : Type} {ops : FloatOps F}
    (Ffield : exact_field ops) (Hord : strict_order ops)
    (base_color : Color_t F) (point : Point3f_t F)
    (params : PaintAgingParameters F) (noise_value : F) :
  peeling_amount params = lit 0 ->
  flt noise_value (lit 1) = true ->
  peel_threshold params = lit 1 /\
  peel_factor params noise_value = lit 0 /\
  applyPaintAging base_color point params noise_value =
    (let aged_color :=
       cscale base_color (fsub (lit 1) (fmul (weathering params) (lit 0.3))) in
     if flt (noise (vscale point
                      (fadd (lit 1) (fmul (crack_density params) (lit 10)))))
            (fmul (crack_density params) (lit 0.2))
     then cscale aged_color (lit 0.7)
     else aged_color).
Proof.
  intros H0 Hlt.
  assert (Ht : peel_threshold params = lit 1).
  { unfold peel_threshold. rewrite H0. apply (fsub_zero Ffield). }
  assert (Hf : peel_factor params noise_value = lit 0).
  { unfold peel_factor. rewrite Ht, (flt_asym Hord _ _ Hlt). reflexivity. }
  repeat split; try assumption.
  unfold applyPaintAging. rewrite Hf, (lerp_zero Ffield). reflexivity.
Qed.

Lemma applyPaintAging_no_peel_witness :
  peel_factor
    (Build_PaintAgingParameters (Q2Qc 0) (Q2Qc 0.5) (Q2Qc 0.25) (Q2Qc 0)
       (Color1 (Q2Qc 0.3)))
    (Q2Qc 0.999) = Q2Qc 0.
Proof.
  apply (applyPaintAging_no_peel Qc_exact_field Qc_strict_order
           (Color (Q2Qc 0.8) (Q2Qc 0.4) (Q2Qc 0.2))
           (Vec3 (Q2Qc 1.5) (Q2Qc (-2.25)) (Q2Qc 7))
           (Build_PaintAgingParameters (Q2Qc 0) (Q2Qc 0.5) (Q2Qc 0.25) (Q2Qc 0)
              (Color1 (Q2Qc 0.3)))
           (Q2Qc 0.999)); reflexivity.
Defined.

(** ** raytracer_kernel.cu: a scene without objects *)

Section EmptyScene.
Context {F Mat Rand : Type} {ops : FloatOps F} {env : KernelEnv F Mat Rand}.
Variable st : Broadcast F Mat.
Hypothesis no_spheres : d_num_spheres st = 0%Z.
Hypothesis no_planes : d_num_planes st = 0%Z.

Lemma intersectScene_empty (ray : Ray_t F) :
  intersectScene st ray = Some no_hit.
Proof.
  unfold intersectScene. rewrite no_spheres, no_planes. reflexivity.
Qed.

Lemma traceRay_body_empty (depth : Z) (s : @PathState F Rand) :
  traceRay_body st depth s = Some (Break s).
Proof.
  unfold traceRay_body. rewrite intersectScene_empty. reflexivity.
Qed.

Lemma traceRay_loop_empty (fuel : nat) (depth : Z) (s : @PathState F Rand) :
  traceRay_loop st fuel depth s = Some s.
Proof.
  destruct fuel as [|fuel]; cbn [traceRay_loop].
  - reflexivity.
  - rewrite traceRay_body_empty. reflexivity.
Qed.
End EmptyScene.

(** C4.  When the published counts of spheres and planes are both zero,
    the scene query reports no hit, the first execution of the loop body of
    [traceRay] ends in [break] with the path state untouched, and [traceRay]
    returns the colour [(0, 0, 0)] for every ray, every generator state and
    every depth budget, without drawing a random number. *)
Theorem traceRay_empty_scene
    {F Mat Rand : Type} {ops : FloatOps F} {env : KernelEnv F Mat Rand}
    (st : Broadcast F Mat) (ray : Ray_t F) (rand_state : Rand) (max_depth : Z) :
  d_num_spheres st = 0%Z ->
  d_num_planes st = 0%Z ->
  option_map (@hit F Mat) (intersectScene st ray) = Some false /\
  (let s0 := Build_PathState ray (Color1 (lit 0)) (Color1 (lit 1)) rand_state in
   traceRay_body st 0 s0 = Some (Break s0)) /\
  traceRay st ray rand_state max_depth
  = Some (Color (lit 0) (lit 0) (lit 0), rand_state).
Proof.
  intros Hs Hp. repeat split.
  - rewrite (intersectScene_empty st Hs Hp). reflexivity.
  - apply (traceRay_body_empty st Hs Hp).
  - unfold traceRay. rewrite (traceRay_loop_empty st Hs Hp). reflexivity.
Qed.

Lemma traceRay_empty_scene_witness :
  traceRay empty_scene axis_ray [Q2Qc 0.5] 50
  = Some (Color (Q2Qc 0) (Q2Qc 0) (Q2Qc 0), [Q2Qc 0.5]).
Proof.
  exact (proj2 (proj2 (traceRay_empty_scene empty_scene axis_ray
                         [Q2Qc 0.5] 50 eq_refl eq_refl))).
Defined.

(** After the upload of a scene without objects every ray comes back
    black. *)
Lemma traceRay_after_empty_upload
    {F Mat Rand : Type} {ops : FloatOps F} {env : KernelEnv F Mat Rand}
    (camera : Camera_t F) (scene : Scene_t F Mat) (st : Broadcast F Mat)
    (ray : Ray_t F) (rand_state : Rand) (max_depth : Z) :
  (implicit_object_count scene <= 0)%Z \/ d_implicit_objects scene = None ->
  traceRay (snd (initializeGPUData camera (Some scene) st)) ray rand_state
    max_depth
  = Some (Color1 (lit 0), rand_state).
Proof.
  intros H. unfold initializeGPUData. cbn [CUDA_CHECK bind ret].
  assert (E : ((implicit_object_count scene <=? 0)%Z
               || is_null (d_implicit_objects scene)) = true).
  { destruct H as [H|H].
    - apply Z.leb_le in H. rewrite H. reflexivity.
    - rewrite H. apply orb_true_r. }
  rewrite E. unfold traceRay.
  rewrite traceRay_loop_empty; reflexivity.
Qed.

(** ** raytracer_kernel.cu: the sphere test *)

Section SphereTest.
Context {F Mat Rand : Type} {ops : FloatOps F} {env : KernelEnv F Mat Rand}.
Variable ray : Ray_t F.
Variable sphere : GPUSphere F Mat.
Local Open Scope float_scope.

Lemma intersectSphere_unfold :
  intersectSphere ray sphere =
  if sphere_discriminant ray sphere <? lit 0 then no_hit
  else if isValidDistance ray (sphere_root_near ray sphere)
       then sphere_hit_record ray sphere (sphere_root_near ray sphere) no_hit
       else if isValidDistance ray (sphere_root_far ray sphere)
            then sphere_hit_record ray sphere (sphere_root_far ray sphere) no_hit
            else no_hit.
Proof.
  unfold intersectSphere, sphere_discriminant, sphere_root_near,
    sphere_root_far, sphere_half_b, no_hit.
  destruct (flt _ (lit 0)); [reflexivity|].
  destruct (isValidDistance ray _); cbn [negb]; [reflexivity|].
  destruct (isValidDistance ray _); reflexivity.
Qed.

Lemma sphere_hit_record_fields (root : F) (i : Intersection_t F Mat) :
  let r := sphere_hit_record ray sphere root i in
  hit r = true /\
  distance r = root /\
  point r = Ray_at ray root /\
  material r = sph_material sphere /\
  frontFace r = (dot (direction ray) (outward_at ray sphere root) <? lit 0) /\
  normal r = (if frontFace r then outward_at ray sphere root
              else vneg (outward_at ray sphere root)) /\
  emission r = (if is_emissive sphere
                then Color_fromFloat3 (sph_emission sphere)
                else emission i).
Proof.
  unfold sphere_hit_record, outward_at.
  destruct (is_emissive sphere); cbn; repeat split; reflexivity.
Qed.
End SphereTest.

Lemma Qc_translation_invariant : translation_invariant Qc_ops.
Proof.
  intros a b c; simpl.
  assert (E : (c + a < c + b)%Qc <-> (a < b)%Qc).
  { rewrite (Qclt_minus_iff (c + a) (c + b)), (Qclt_minus_iff a b).
    replace (c + b + - (c + a))%Qc with (b + - a)%Qc by ring. tauto. }
  destruct (Qc_ltb a b) eqn:H.
  - apply Qc_ltb_lt. apply E. apply Qc_ltb_lt. exact H.
  - destruct (Qc_ltb (c + a) (c + b)) eqn:H'; [|reflexivity].
    apply Qc_ltb_lt in H'. apply E in H'. apply Qc_ltb_lt in H'. congruence.
Qed.

Section RootOrder.
Context {F : Type} {ops : FloatOps F}.
Hypothesis Ffield :
  field_theory (lit 0) (lit 1) fadd fmul fsub fopp fdiv
    (fun x => fdiv (lit 1) x) eq.
Hypothesis Hord : strict_order ops.
Hypothesis Hadd : translation_invariant ops.
Local Open Scope float_scope.

Add Field root_field : Ffield.

(** With a non-negative square root, [(-b + s) / 1] is not below
    [(-b - s) / 1]. *)
Lemma minus_root_not_above (b s : F) :
  (s <? lit 0) = false ->
  ((- b + s) / lit 1 <? (- b - s) / lit 1) = false.
Proof.
  intros Hs.
  replace ((- b + s) / lit 1) with (- b + s)
    by (field; exact (F_1_neq_0 Ffield)).
  replace ((- b - s) / lit 1) with (- b + - s)
    by (field; exact (F_1_neq_0 Ffield)).
  rewrite Hadd.
  destruct (s <? - s) eqn:E; [exfalso|reflexivity].
  assert (E1 : (s + s <? lit 0) = true).
  { replace (lit 0) with (s + - s) by ring. rewrite Hadd. exact E. }
  assert (E2 : (s + s <? s) = false).
  { replace s with (s + lit 0) at 3 by ring. rewrite Hadd. exact Hs. }
  pose proof (flt_below Hord _ _ _ E1 Hs) as E3. congruence.
Qed.
End RootOrder.

(** C5.  The sphere test reports no hit when the discriminant is negative.
    Otherwise it takes the root [(-half_b - sqrtd) / a] when that root is a
    valid distance for the ray, the root [(-half_b + sqrtd) / a] when the
    first is not valid and the second is, and reports no hit when neither
    is.  In exact ordered arithmetic with a non-negative square root, the
    first root is the smaller one.  On a hit the record has the distance of
    the chosen root, the normal turned against the ray, and for an emissive
    sphere the emission stored in the sphere; for a sphere uploaded from an
    emissive host sphere that is the emission colour times the strength. *)
Theorem intersectSphere_roots
    {F Mat Rand : Type} {ops : FloatOps F} {env : KernelEnv F Mat Rand}
    (ray : Ray_t F) (sphere : GPUSphere F Mat) :
  let disc := sphere_discriminant ray sphere in
  let near := sphere_root_near ray sphere in
  let far := sphere_root_far ray sphere in
  let result := intersectSphere ray sphere in
  hit no_hit = false /\
  (flt disc (lit 0) = true -> result = no_hit) /\
  (flt disc (lit 0) = false -> isValidDistance ray near = true ->
   result = sphere_hit_record ray sphere near no_hit) /\
  (flt disc (lit 0) = false -> isValidDistance ray near = false ->
   isValidDistance ray far = true ->
   result = sphere_hit_record ray sphere far no_hit) /\
  (flt disc (lit 0) = false -> isValidDistance ray near = false ->
   isValidDistance ray far = false -> result = no_hit) /\
  (exact_field ops -> strict_order ops -> translation_invariant ops ->
   flt (sqrtf disc) (lit 0) = false -> flt far near = false) /\
  (forall root,
     let r := sphere_hit_record ray sphere root no_hit in
     hit r = true /\
     distance r = root /\
     frontFace r = flt (dot (direction ray) (outward_at ray sphere root)) (lit 0) /\
     normal r = (if frontFace r then outward_at ray sphere root
                 else vneg (outward_at ray sphere root)) /\
     (is_emissive sphere = true ->
      emission r = Color_fromFloat3 (sph_emission sphere))) /\
  (forall host : Sphere_t F Mat,
     isEmissive host = true ->
     is_emissive (to_GPUSphere host) = true /\
     Color_fromFloat3 (sph_emission (to_GPUSphere host))
     = cscale (getEmissionColor host) (getEmissionStrength host)).
Proof.
  intros disc near far result.
  pose proof (intersectSphere_unfold ray sphere) as U.
  fold disc near far result in U.
  split; [reflexivity|].
  split; [intros H; rewrite U, H; reflexivity|].
  split; [intros H1 H2; rewrite U, H1, H2; reflexivity|].
  split; [intros H1 H2 H3; rewrite U, H1, H2, H3; reflexivity|].
  split; [intros H1 H2 H3; rewrite U, H1, H2, H3; reflexivity|].
  split; [intros Hf Ho Ha Hs; apply (minus_root_not_above Hf Ho Ha); exact Hs|].
  split.
  - intros root r.
    destruct (sphere_hit_record_fields ray sphere root no_hit)
      as (H1 & H2 & _ & _ & H5 & H6 & H7).
    fold r in H1, H2, H5, H6, H7.
    repeat split; try assumption.
    intros He. rewrite H7, He. reflexivity.
  - intros host He. unfold to_GPUSphere; cbn. rewrite He.
    split; reflexivity.
Qed.

Lemma intersectSphere_roots_witness :
  hit (intersectSphere axis_ray (sphere_at 10 2 Diffuse)) = true.
Proof.
  destruct (intersectSphere_roots axis_ray (sphere_at 10 2 Diffuse))
    as (_ & _ & H & _ & _ & _ & Hrec & _).
  rewrite H by reflexivity. apply Hrec.
Defined.

(** ** raytracer_kernel.cu: the scene query *)

Lemma skipn_nth_error {A : Type} (l : list A) (i : nat) (a : A) :
  nth_error l i = Some a -> skipn i l = a :: skipn (S i) l.
Proof.
  revert l. induction i as [|i IH]; intros [|x l] H; try discriminate H.
  - cbn in H. injection H as ->. reflexivity.
  - cbn in H. cbn [skipn]. rewrite (IH l H). reflexivity.
Qed.

Lemma fold_left_map_in {A B C : Type} (f : C -> B -> C) (g : A -> B)
    (l : list A) (c : C) :
  fold_left f (map g l) c = fold_left (fun c a => f c (g a)) l c.
Proof. revert c. induction l as [|a l IH]; intros c; cbn; auto. Qed.

Lemma nth_error_snoc {A : Type} (l : list A) (c x : A) (j : nat) :
  nth_error (l ++ [c]) j = Some x ->
  ((j < length l)%nat /\ nth_error l j = Some x) \/ (j = length l /\ x = c).
Proof.
  intros H. destruct (Nat.lt_ge_cases j (length l)) as [Hlt|Hge].
  - left. split; [exact Hlt|]. rewrite nth_error_app1 in H; assumption.
  - right. rewrite nth_error_app2 in H by exact Hge.
    destruct (j - length l)%nat as [|m] eqn:E; cbn in H.
    + injection H as <-. split; [lia|reflexivity].
    + destruct m; discriminate H.
Qed.

Section SceneQuery.
Context {F Mat Rand : Type} {ops : FloatOps F} {env : KernelEnv F Mat Rand}.
Local Open Scope float_scope.

Lemma scan_fold {A : Type} (test : A -> Intersection_t F Mat) (arr : list A)
    (n i : nat) (best : F * Intersection_t F Mat) :
  (i + n <= length arr)%nat ->
  scan test arr i n best
  = Some (fold_left (fun b c => closer c b)
            (map test (firstn n (skipn i arr))) best).
Proof.
  revert i best. induction n as [|n IH]; intros i best Hlen; cbn [scan].
  - reflexivity.
  - destruct (nth_error arr i) as [obj|] eqn:E.
    + rewrite (skipn_nth_error _ _ E). cbn [firstn map fold_left].
      apply IH. lia.
    + apply nth_error_None in E. lia.
Qed.

Lemma intersectScene_fold (st : Broadcast F Mat) (ray : Ray_t F) :
  (Z.to_nat (d_num_spheres st) <= length (d_spheres st))%nat ->
  (Z.to_nat (d_num_planes st) <= length (d_planes st))%nat ->
  intersectScene st ray
  = Some (snd (fold_left (fun b c => closer c b) (scene_candidates st ray)
                 (FLOAT_MAX, no_hit))).
Proof.
  intros Hs Hp. unfold intersectScene, scene_candidates.
  rewrite (scan_fold _ _ _ 0 _ Hs), (scan_fold _ _ _ 0 _ Hp).
  cbn [skipn]. rewrite fold_left_app. reflexivity.
Qed.


Hypothesis Hord : strict_order ops.

Lemma nearest_so_far_step (seen : list (Intersection_t F Mat))
    (best : F * Intersection_t F Mat) (c : Intersection_t F Mat) :
  nearest_so_far seen best -> nearest_so_far (seen ++ [c]) (closer c best).
Proof.
  destruct best as [d r]. unfold nearest_so_far, closer; cbn [fst snd].
  intros [(Hr & Hd & Hnone) | (k & Hk & Hq & Hd & Hmin & Hfirst)].
  - (* nothing has qualified so far *)
    subst d. fold (qualifies c). destruct (qualifies c) eqn:Qc; cbn [fst snd].
    + right. exists (length seen). repeat split.
      * rewrite nth_error_app2 by lia. rewrite Nat.sub_diag. reflexivity.
      * exact Qc.
      * intros j x Hx Qx. apply nth_error_snoc in Hx as [[_ Hx]|[_ ->]].
        -- apply nth_error_In in Hx. rewrite (Hnone _ Hx) in Qx. discriminate.
        -- apply (flt_irrefl Hord).
      * intros j x Hj Hx Qx. rewrite nth_error_app1 in Hx by exact Hj.
        apply nth_error_In in Hx. rewrite (Hnone _ Hx) in Qx. discriminate.
    + left. repeat split; try assumption.
      intros x Hx. apply in_app_or in Hx as [Hx|[<-|[]]]; auto.
  - (* [r] is the nearest so far *)
    subst d.
    assert (Hk' : (k < length seen)%nat)
      by (apply nth_error_Some; rewrite Hk; discriminate).
    unfold qualifies in Hq. apply andb_prop in Hq as [Hhit Hmax].
    destruct (hit c && (distance c <? distance r)) eqn:Hc; cbn [fst snd].
    + apply andb_prop in Hc as [Hchit Hcr].
      right. exists (length seen). repeat split.
      * rewrite nth_error_app2 by lia. rewrite Nat.sub_diag. reflexivity.
      * unfold qualifies. rewrite Hchit. cbn.
        exact (flt_trans Hord _ _ _ Hcr Hmax).
      * intros j x Hx Qx. apply nth_error_snoc in Hx as [[_ Hx]|[_ ->]].
        -- destruct (distance x <? distance c) eqn:E; [|reflexivity].
           rewrite <- (Hmin _ _ Hx Qx). symmetry.
           exact (flt_trans Hord _ _ _ E Hcr).
        -- apply (flt_irrefl Hord).
      * intros j x Hj Hx Qx. rewrite nth_error_app1 in Hx by exact Hj.
        exact (flt_below Hord _ _ _ Hcr (Hmin _ _ Hx Qx)).
    + right. exists k. repeat split.
      * rewrite nth_error_app1 by exact Hk'. exact Hk.
      * unfold qualifies. rewrite Hhit, Hmax. reflexivity.
      * intros j x Hx Qx. apply nth_error_snoc in Hx as [[_ Hx]|[_ ->]].
        -- exact (Hmin _ _ Hx Qx).
        -- unfold qualifies in Qx. apply andb_prop in Qx as [Qh _].
           rewrite Qh in Hc. exact Hc.
      * intros j x Hj Hx Qx.
        rewrite nth_error_app1 in Hx by lia.
        exact (Hfirst _ _ Hj Hx Qx).
Qed.

Lemma nearest_so_far_fold (rest seen : list (Intersection_t F Mat))
    (best : F * Intersection_t F Mat) :
  nearest_so_far seen best ->
  nearest_so_far (seen ++ rest) (fold_left (fun b c => closer c b) rest best).
Proof.
  revert seen best. induction rest as [|c rest IH]; intros seen best H.
  - rewrite app_nil_r. exact H.
  - cbn [fold_left].
    replace (seen ++ c :: rest) with ((seen ++ [c]) ++ rest)
      by (rewrite <- app_assoc; reflexivity).
    apply IH. apply nearest_so_far_step. exact H.
Qed.
End SceneQuery.

(** C6.  When the published counts lie within the arrays, the scene query
    returns a record: it compares the spheres and then the planes, in index
    order, and returns either the starting record with [hit = false], when no
    compared record is a hit below [FLOAT_MAX], or one of the compared
    records, a hit that no qualifying record lies strictly below and that
    lies strictly below every qualifying record compared before it, so that
    of several records at the least distance the first in scan order is
    returned.  Stated for a comparison that is a strict order. *)
Theorem intersectScene_nearest
    {F Mat Rand : Type} {ops : FloatOps F} {env : KernelEnv F Mat Rand}
    (Hord : strict_order ops) (st : Broadcast F Mat) (ray : Ray_t F) :
  (Z.to_nat (d_num_spheres st) <= length (d_spheres st))%nat ->
  (Z.to_nat (d_num_planes st) <= length (d_planes st))%nat ->
  exists r,
    intersectScene st ray = Some r /\
    ((r = no_hit /\ hit r = false /\
      forall c, In c (scene_candidates st ray) -> qualifies c = false)
     \/
     (exists k,
        nth_error (scene_candidates st ray) k = Some r /\
        hit r = true /\ qualifies r = true /\
        (forall j c, nth_error (scene_candidates st ray) j = Some c ->
                     qualifies c = true ->
                     flt (distance c) (distance r) = false) /\
        (forall j c, (j < k)%nat ->
                     nth_error (scene_candidates st ray) j = Some c ->
                     qualifies c = true ->
                     flt (distance r) (distance c) = true))).
Proof.
  intros Hs Hp. rewrite (intersectScene_fold st ray Hs Hp).
  eexists; split; [reflexivity|].
  assert (H0 : nearest_so_far (@nil (Intersection_t F Mat)) (FLOAT_MAX, no_hit)).
  { left. cbn. repeat split. intros c []. }
  pose proof (nearest_so_far_fold Hord (scene_candidates st ray) H0) as H.
  cbn [app] in H.
  destruct H as [(Hr & _ & Hnone) | (k & Hk & Hq & _ & Hmin & Hfirst)].
  - left. rewrite Hr. repeat split. exact Hnone.
  - right. exists k. repeat split; try assumption.
    unfold qualifies in Hq. apply andb_prop in Hq as [Hh _]. exact Hh.
Qed.

Lemma intersectScene_nearest_witness :
  exists r, intersectScene three_objects axis_ray = Some r.
Proof.
  destruct (intersectScene_nearest Qc_strict_order three_objects axis_ray)
    as (r & H & _).
  - vm_compute. lia.
  - vm_compute. lia.
  - exists r. exact H.
Defined.

(** In [three_objects] the second and the third sphere are both reached at
    distance four; the second, compared first, is returned. *)
Example intersectScene_tie :
  option_map (fun r => (hit r, material r, this (distance r)))
    (intersectScene three_objects axis_ray)
  = Some (true, Mirror, 4%Q)
  /\ map (fun r => this (distance r)) (scene_candidates three_objects axis_ray)
     = [8%Q; 4%Q; 4%Q; 20%Q].
Proof. split; vm_compute; reflexivity. Qed.

(** ** raytracer_kernel.cu: accumulation of frames *)

Lemma wrap32_small (n : Z) : (0 <= n < 2 ^ 32)%Z -> wrap32 n = n.
Proof. intros H. unfold wrap32. apply Z.mod_small. exact H. Qed.

Lemma to_int32_small (n : Z) : (- 2 ^ 31 <= n < 2 ^ 31)%Z -> to_int32 n = n.
Proof. intros H. unfold to_int32. rewrite Z.mod_small by lia. lia. Qed.

Lemma pixel_index_in_image (th : Thread) (width height : Z) :
  (width * height <= 2 ^ 31)%Z ->
  in_image th width height ->
  pixel_index th width = (thread_y th * width + thread_x th)%Z /\
  (0 <= thread_y th * width + thread_x th < width * height)%Z.
Proof.
  intros Hwh [[Hx0 Hx] [Hy0 Hy]].
  assert (B : (0 <= thread_y th * width + thread_x th < width * height)%Z)
    by nia.
  unfold pixel_index. rewrite wrap32_small by lia.
  rewrite to_int32_small by lia. split; [reflexivity | exact B].
Qed.

Lemma in_image_unsigned (th : Thread) (width height : Z) :
  (width * height <= 2 ^ 31)%Z ->
  in_image th width height ->
  wrap32 (thread_x th) = thread_x th /\ wrap32 (thread_y th) = thread_y th.
Proof.
  intros Hwh [[Hx0 Hx] [Hy0 Hy]].
  assert (width <= width * height)%Z by nia.
  assert (height <= width * height)%Z by nia.
  split; apply wrap32_small; lia.
Qed.

Section RenderFacts.
Context {F Mat Rand : Type} {ops : FloatOps F} {env : KernelEnv F Mat Rand}.
Variable st : Broadcast F Mat.
Variables width height frame_count : Z.

Lemma renderKernel_unfold (th : Thread) (output : Z -> float4 F) :
  renderKernel st th output width height frame_count =
  if (width <=? wrap32 (thread_x th))%Z || (height <=? wrap32 (thread_y th))%Z
  then Some output
  else match thread_sample st th width height frame_count with
       | None => None
       | Some c =>
           Some (store output (pixel_index th width)
                   (accumulate frame_count c (output (pixel_index th width))))
       end.
Proof.
  unfold renderKernel, thread_sample, thread_seed, initRand, pixel_index.
  destruct ((width <=? wrap32 (thread_x th))%Z
            || (height <=? wrap32 (thread_y th))%Z);
    [reflexivity|].
  destruct (curand_uniform _) as [du r1].
  destruct (curand_uniform r1) as [dv r2].
  destruct (traceRay st _ r2 50) as [[c r3]|]; reflexivity.
Qed.

Lemma renderKernel_in_image (th : Thread) (output : Z -> float4 F) :
  (width * height <= 2 ^ 31)%Z ->
  in_image th width height ->
  renderKernel st th output width height frame_count =
  match thread_sample st th width height frame_count with
  | None => None
  | Some c =>
      let cell := (thread_y th * width + thread_x th)%Z in
      Some (store output cell (accumulate frame_count c (output cell)))
  end.
Proof.
  intros Hwh Hin. rewrite renderKernel_unfold.
  destruct (in_image_unsigned Hwh Hin) as [-> ->].
  destruct (pixel_index_in_image Hwh Hin) as [-> _].
  destruct Hin as [[_ Hx] [_ Hy]].
  apply Z.leb_gt in Hx, Hy. rewrite Hx, Hy. reflexivity.
Qed.
End RenderFacts.

(** C7.  A thread of the render kernel that lies inside an image of at most
    [2^31] pixels and whose trace returns a sample writes the cell
    [y * width + x] and no other; the cell becomes [accumulate] applied to
    the sample and the previous content of that cell.  With
    [frame_count = 0] that is the sample itself; with [frame_count > 0] it is
    the sample times [t] plus the previous colour times [1 - t], where
    [t = 1 / (frame_count + 1)] (the sum taken in 32 bits); the fourth
    component is always one.  When the arithmetic is exact, blending a
    colour with itself gives that colour back, for every frame count. *)
Theorem accumulate_blend
    {F Mat Rand : Type} {ops : FloatOps F} {env : KernelEnv F Mat Rand}
    (frame_count : Z) (pixel_color : Color_t F) (prev_color : float4 F) :
  (forall (st : Broadcast F Mat) th output width height sample,
     in_image th width height -> (width * height <= 2 ^ 31)%Z ->
     thread_sample st th width height frame_count = Some sample ->
     exists out',
       renderKernel st th output width height frame_count = Some out' /\
       let cell := (thread_y th * width + thread_x th)%Z in
       out' cell = accumulate frame_count sample (output cell)
       /\ forall i, i <> cell -> out' i = output i) /\
  accumulate 0 pixel_color prev_color
  = make_float4 (cr pixel_color) (cg pixel_color) (cb pixel_color) (lit 1) /\
  ((0 < frame_count)%Z ->
   let t := fdiv (lit 1) (of_int (wrap32 (frame_count + 1))) in
   accumulate frame_count pixel_color prev_color
   = make_float4
       (fadd (fmul (cr pixel_color) t) (fmul (f4x prev_color) (fsub (lit 1) t)))
       (fadd (fmul (cg pixel_color) t) (fmul (f4y prev_color) (fsub (lit 1) t)))
       (fadd (fmul (cb pixel_color) t) (fmul (f4z prev_color) (fsub (lit 1) t)))
       (lit 1)) /\
  ((0 <= frame_count < 2 ^ 32 - 1)%Z ->
   wrap32 (frame_count + 1) = (frame_count + 1)%Z) /\
  (exact_field ops ->
   forall w,
     accumulate frame_count pixel_color
       (make_float4 (cr pixel_color) (cg pixel_color) (cb pixel_color) w)
     = make_float4 (cr pixel_color) (cg pixel_color) (cb pixel_color) (lit 1)).
Proof.
  repeat split.
  - intros st th output width height sample Hin Hwh Hs.
    rewrite (renderKernel_in_image st frame_count output Hwh Hin), Hs.
    eexists. split; [reflexivity|]. cbv zeta. split.
    + unfold store. rewrite Z.eqb_refl. reflexivity.
    + intros i Hi. unfold store. apply Z.eqb_neq in Hi. rewrite Hi. reflexivity.
  - intros Hpos. unfold accumulate, blend_weight.
    apply Z.ltb_lt in Hpos. rewrite Hpos. reflexivity.
  - intros H. apply wrap32_small. lia.
  - intros Ffield w. unfold accumulate.
    destruct (0 <? frame_count)%Z; cbn [f4x f4y f4z].
    + replace (Color (cr pixel_color) (cg pixel_color) (cb pixel_color))
        with pixel_color by (destruct pixel_color; reflexivity).
      rewrite (blend_same Ffield). reflexivity.
    + reflexivity.
Qed.

Lemma accumulate_blend_witness :
  (exists sample out',
     thread_sample lone_sphere (Build_Thread 1 0 2) 2 1 3 = Some sample /\
     renderKernel lone_sphere (Build_Thread 1 0 2)
       (fun _ => make_float4 (Q2Qc 0.8) (Q2Qc 0.4) (Q2Qc 0.2) (Q2Qc 0)) 2 1 3
     = Some out' /\
     out' 1%Z
     = accumulate 3 sample
         (make_float4 (Q2Qc 0.8) (Q2Qc 0.4) (Q2Qc 0.2) (Q2Qc 0))) /\
  accumulate (F := Qc) 3 (Color (Q2Qc 0.8) (Q2Qc 0.4) (Q2Qc 0.2))
    (make_float4 (Q2Qc 0.8) (Q2Qc 0.4) (Q2Qc 0.2) (Q2Qc 0))
  = make_float4 (Q2Qc 0.8) (Q2Qc 0.4) (Q2Qc 0.2) (Q2Qc 1).
Proof.
  pose proof (accumulate_blend (env := demo_env) 3
                (Color (Q2Qc 0.8) (Q2Qc 0.4) (Q2Qc 0.2))
                (make_float4 (Q2Qc 0) (Q2Qc 0) (Q2Qc 0) (Q2Qc 0)))
    as (K & _ & _ & _ & E).
  split.
  - destruct (thread_sample lone_sphere (Build_Thread 1 0 2) 2 1 3)
      as [sample|] eqn:S; [|vm_compute in S; discriminate S].
    destruct (K lone_sphere (Build_Thread 1 0 2)
                (fun _ => make_float4 (Q2Qc 0.8) (Q2Qc 0.4) (Q2Qc 0.2) (Q2Qc 0))
                2%Z 1%Z sample) as (out' & R & W & _).
    + unfold in_image; cbn; lia.
    + vm_compute. discriminate.
    + exact S.
    + exists sample, out'. split; [reflexivity|]. split; [exact R | exact W].
  - exact (E Qc_exact_field (Q2Qc 0)).
Defined.

(** The rounding on numbers whose single precision neighbours are well
    known: [0.1f] and [0.8f]; one third; [2^24 + 1] and [2^24 + 3], which
    lie half way between two numbers of the format; the largest finite
    number, the largest number that still rounds to it, and the first that
    overflows; the smallest positive number, and half of it. *)
Example binary32_round_samples :
  map (fun q => option_map this (binary32_round (Q2Qc q)))
    [0.1; 0.8; 1 # 3; 16777217; 16777219;
     340282346638528859811704183484516925440;
     340282356779733661637539395458142568447;
     340282356779733661637539395458142568448;
     1 # Z.to_pos (2 ^ 149); 1 # Z.to_pos (2 ^ 150)]%Q
  = [Some (13421773 # 134217728); Some (13421773 # 16777216);
     Some (11184811 # 33554432); Some 16777216; Some 16777220;
     Some 340282346638528859811704183484516925440;
     Some 340282346638528859811704183484516925440;
     None;
     Some (1 # Z.to_pos (2 ^ 149)); Some 0]%Q.
Proof. vm_compute. reflexivity. Qed.

(** C7, as first stated, fails in single precision.  Take the colour whose
    channels are [0.8f] and blend it with a cell that holds the same colour
    at [frame_count = 2].  The weight [1.0f / 3] is [0x1.555556p-2] and
    [1.0f - t] is [0x1.555554p-1]; the two products are [0x1.111112p-2] and
    [0x1.11111p-1], and their sum is [0x1.999998p-1], the number just below
    [0.8f = 0x1.99999ap-1]: the stored colour is not the colour that was
    blended. *)
Lemma equal_colours_blend_rounds :
  let c := cr grey_08 in
  let one := lit (FloatOps := binary32_ops) 1 in
  let t := blend_weight (ops := binary32_ops) 2 in
  let cell := accumulate (ops := binary32_ops) 2 grey_08 grey_08_cell in
  option_map this c = Some (13421773 # 16777216)%Q /\
  option_map this t = Some (11184811 # 33554432)%Q /\
  option_map this (fsub (FloatOps := binary32_ops) one t)
  = Some (5592405 # 8388608)%Q /\
  option_map this (fmul (FloatOps := binary32_ops) c t)
  = Some (8947849 # 33554432)%Q /\
  option_map this
    (fmul (FloatOps := binary32_ops) c
       (fsub (FloatOps := binary32_ops) one t))
  = Some (1118481 # 2097152)%Q /\
  option_map this (f4x cell) = Some (3355443 # 4194304)%Q /\
  f4x cell = f4y cell /\ f4x cell = f4z cell /\
  f4x cell <> c /\
  cell <> grey_08_cell.
Proof.
  cbv zeta.
  assert (N : f4x (accumulate (ops := binary32_ops) 2 grey_08 grey_08_cell)
              <> cr grey_08).
  { intros E. apply (f_equal (option_map this)) in E. vm_compute in E.
    discriminate E. }
  repeat split; try (vm_compute; reflexivity); try exact N.
  intros E. apply N. rewrite E. reflexivity.
Qed.

(** The same blend leaves [0.8f] in place at [frame_count = 1], where the
    weight is one half, and moves it at 199 of the frame counts from 1 to
    1000. *)
Example equal_colours_blend_first_thousand :
  f4x (accumulate (ops := binary32_ops) 1 grey_08 grey_08_cell) = cr grey_08 /\
  length
    (filter
       (fun n =>
          negb (binary32_eqb
                  (f4x (accumulate (ops := binary32_ops) (Z.of_nat n)
                          grey_08 grey_08_cell))
                  (cr grey_08)))
       (seq 1 1000))
  = 199%nat.
Proof. split; vm_compute; reflexivity. Qed.

(** ** raytracer_kernel.cu: Russian roulette in the path integrator *)

(** C3.  Take a bounce at which the scene query hits and the material
    scatters.  If the scatter is specular, the body goes on to the next
    bounce with the throughput times the attenuation and the generator as
    [scatter] left it, at every depth: no roulette.  If it is not specular
    and [depth <= 3], the body goes on with the updated throughput and the
    generator as [scatter] left it: no roulette.  If it is not specular and
    [depth > 3], the roulette is played on the updated throughput: [p] is the
    largest of its three channels, one uniform sample is drawn, the path
    ends when the sample exceeds [p], and otherwise goes on with the
    throughput times [1 / p]. *)
Theorem traceRay_body_roulette
    {F Mat Rand : Type} {ops : FloatOps F} {env : KernelEnv F Mat Rand}
    (st : Broadcast F Mat) (depth : Z) (s : @PathState F Rand)
    (isect : Intersection_t F Mat) (srec : ScatterRecord_t F) (rand : Rand) :
  intersectScene st (ps_ray s) = Some isect ->
  hit isect = true ->
  scatter (material isect) (ps_ray s) isect (ps_rand s) = (Some srec, rand) ->
  let final_color := radiance_after_hit s isect in
  let ray := scattered_ray srec in
  let throughput := diffuse_throughput s isect srec in
  (is_specular srec = true ->
   traceRay_body st depth s
   = Some (Next (Build_PathState ray final_color
                   (cmul (ps_throughput s) (attenuation srec)) rand))) /\
  (is_specular srec = false -> (depth <= 3)%Z ->
   traceRay_body st depth s
   = Some (Next (Build_PathState ray final_color throughput rand))) /\
  (is_specular srec = false -> (3 < depth)%Z ->
   traceRay_body st depth s
   = Some (match russian_roulette throughput rand with
           | (None, rand') =>
               Break (Build_PathState ray final_color throughput rand')
           | (Some survivor, rand') =>
               Next (Build_PathState ray final_color survivor rand')
           end)).
Proof.
  intros Hq Hhit Hsc final_color ray throughput.
  unfold traceRay_body. rewrite Hq, Hhit. cbn [negb]. rewrite Hsc.
  repeat split.
  - intros Hsp. rewrite Hsp. reflexivity.
  - intros Hsp Hd. rewrite Hsp. apply Z.ltb_ge in Hd. rewrite Hd. reflexivity.
  - intros Hsp Hd. rewrite Hsp. apply Z.ltb_lt in Hd. rewrite Hd.
    unfold russian_roulette. fold throughput.
    change (cmul (ps_throughput s)
              (cscale (cscale (attenuation srec)
                         (scatteringPdf (material isect) (scattered_ray srec)
                            isect (scattered_ray srec)))
                      (fdiv (lit 1) (pdf srec)))) with throughput.
    destruct (curand_uniform rand) as [u rand'].
    destruct (flt (max_channel throughput) u); reflexivity.
Qed.

(** At bounce 4 of the diffuse corridor the roulette is played: with the
    sample [0.5] against [p = 1/32] the path ends. *)
Lemma traceRay_body_roulette_witness :
  exists s,
    traceRay_body (corridor Diffuse) 4 (state_at_bounce_4 Diffuse [Q2Qc 0.5])
    = Some (Break s).
Proof.
  destruct (intersectScene (corridor Diffuse)
              (ps_ray (state_at_bounce_4 Diffuse [Q2Qc 0.5])))
    as [isect|] eqn:Hq; [|vm_compute in Hq; discriminate Hq].
  assert (Hh : hit isect = true).
  { vm_compute in Hq. injection Hq as <-. reflexivity. }
  destruct (scatter (material isect)
              (ps_ray (state_at_bounce_4 Diffuse [Q2Qc 0.5])) isect
              (ps_rand (state_at_bounce_4 Diffuse [Q2Qc 0.5])))
    as [[srec|] rand] eqn:Hs.
  2:{ vm_compute in Hq. injection Hq as <-. vm_compute in Hs. discriminate Hs. }
  assert (Hsp : is_specular srec = false).
  { vm_compute in Hq. injection Hq as <-. vm_compute in Hs.
    injection Hs as <- <-. reflexivity. }
  destruct (traceRay_body_roulette (corridor Diffuse) 4 _ Hq Hh Hs)
    as (_ & _ & H).
  rewrite (H Hsp eq_refl).
  vm_compute in Hq. injection Hq as <-. vm_compute in Hs.
  injection Hs as <- <-. vm_compute. eexists. reflexivity.
Defined.

(** C3, as first stated, fails at a specular bounce.  In the mirror
    corridor the path reaches bounce 4 with throughput [1/16]; the next
    sample of the generator is one, above the largest channel of the
    throughput both before ([1/16]) and after ([1/32]) the bounce; yet the
    body does not end the path: it goes on to bounce 5, the generator
    untouched and the throughput not rescaled.  The path runs through all
    fifty bounces of the budget, halving the throughput each time. *)
Lemma specular_bounce_skips_roulette :
  let s := state_at_bounce_4 Mirror [] in
  traceRay_loop (corridor Mirror) 4 0 (path_start []) = Some s /\
  exists s',
    traceRay_body (corridor Mirror) 4 s = Some (Next s') /\
    flt (max_channel (ps_throughput s)) (fst (curand_uniform (ps_rand s))) = true /\
    flt (max_channel (ps_throughput s')) (fst (curand_uniform (ps_rand s'))) = true /\
    ps_rand s' = ps_rand s /\
    this (cr (ps_throughput s)) = (1 # 16)%Q /\
    this (cr (ps_throughput s')) = (1 # 32)%Q /\
    option_map (fun s50 => this (cr (ps_throughput s50)))
      (traceRay_loop (corridor Mirror) 50 0 (path_start []))
    = Some (1 # 2 ^ 50)%Q.
Proof.
  split.
  - vm_compute. reflexivity.
  - eexists. split; [vm_compute; reflexivity|].
    repeat split; vm_compute; reflexivity.
Qed.

(** ** raytracer_kernel.cu: the upload *)

Section UploadFacts.
Context {F Mat : Type} {ops : FloatOps F}.
Variable camera : Camera_t F.
Variable st : Broadcast F Mat.

Lemma initializeGPUData_null :
  initializeGPUData camera None st
  = (Thrown (runtime_error "Scene pointer is null in initializeGPUData"), st).
Proof. reflexivity. Qed.

Lemma initializeGPUData_degenerate (scene : Scene_t F Mat) :
  (implicit_object_count scene <= 0)%Z \/ d_implicit_objects scene = None ->
  initializeGPUData camera (Some scene) st
  = (Returned tt,
     Build_Broadcast (to_GPUCamera camera) (d_spheres st) (d_planes st) 0 0).
Proof.
  intros H. unfold initializeGPUData.
  assert (E : ((implicit_object_count scene <=? 0)%Z
               || is_null (d_implicit_objects scene)) = true).
  { destruct H as [H|H].
    - apply Z.leb_le in H. cbn [CUDA_CHECK]. rewrite H. reflexivity.
    - rewrite H. apply orb_true_r. }
  cbn [CUDA_CHECK bind ret]. rewrite E. reflexivity.
Qed.

(** The state after the upload of a scene whose object array has been
    copied to [objs]. *)
Lemma initializeGPUData_objects (scene : Scene_t F Mat)
    (device_objects : list (ImplicitObject_t F Mat)) :
  d_implicit_objects scene = Some device_objects ->
  (0 < implicit_object_count scene <= Z.of_nat (length device_objects))%Z ->
  let objs := firstn (Z.to_nat (implicit_object_count scene)) device_objects in
  let h_spheres := collect_spheres objs in
  let h_planes := collect_planes objs in
  initializeGPUData camera (Some scene) st
  = (Returned tt,
     Build_Broadcast (to_GPUCamera camera)
       (if (0 <? Z.of_nat (length h_spheres))%Z
        then snd (cudaMemcpyToSymbol_array (d_spheres st) h_spheres)
        else d_spheres st)
       (if (0 <? Z.of_nat (length h_planes))%Z
        then snd (cudaMemcpyToSymbol_array (d_planes st) h_planes)
        else d_planes st)
       (Z.of_nat (length h_spheres)) (Z.of_nat (length h_planes))).
Proof.
  intros Hp [Hpos Hlen] objs h_spheres h_planes.
  unfold initializeGPUData. cbn [CUDA_CHECK bind ret].
  rewrite Hp. cbn [is_null pointee].
  apply Z.leb_gt in Hpos. rewrite Hpos. cbn [orb].
  unfold try_rethrow, bind, cudaMemcpy_objects.
  apply Z.leb_le in Hlen. rewrite Hlen. cbn [CUDA_CHECK ret].
  fold objs. fold h_spheres. fold h_planes.
  destruct (0 <? Z.of_nat (length h_spheres))%Z;
    destruct (0 <? Z.of_nat (length h_planes))%Z; reflexivity.
Qed.
End UploadFacts.

Lemma cudaMemcpyToSymbol_array_prefix {A : Type} (symbol src : list A) :
  (length src <= capacity)%nat ->
  firstn (length src) (snd (cudaMemcpyToSymbol_array symbol src)) = src.
Proof.
  intros H. unfold cudaMemcpyToSymbol_array.
  apply Nat.leb_le in H. rewrite H. cbn [snd].
  rewrite firstn_app, Nat.sub_diag, firstn_all. cbn [firstn].
  apply app_nil_r.
Qed.

Lemma published_prefix {A : Type} (symbol src : list A) :
  (length src <= capacity)%nat ->
  firstn (length src)
    (if (0 <? Z.of_nat (length src))%Z
     then snd (cudaMemcpyToSymbol_array symbol src)
     else symbol) = src.
Proof.
  intros H. destruct (0 <? Z.of_nat (length src))%Z eqn:E.
  - apply cudaMemcpyToSymbol_array_prefix. exact H.
  - apply Z.ltb_ge in E. destruct src as [|x l]; [reflexivity|].
    cbn [length] in E. lia.
Qed.

(** C2.  With a null scene handle [initializeGPUData] throws and leaves the
    camera, both arrays and both counts as they were.  With a handle that is
    not null and a scene whose object count is not positive or whose object
    array pointer is null, it returns normally with both counts published as
    zero (the camera is republished, the arrays keep their content). *)
Theorem initializeGPUData_null_or_empty
    {F Mat : Type} {ops : FloatOps F}
    (camera : Camera_t F) (st : Broadcast F Mat) :
  initializeGPUData camera None st
  = (Thrown (runtime_error "Scene pointer is null in initializeGPUData"), st) /\
  (forall scene : Scene_t F Mat,
     (implicit_object_count scene <= 0)%Z \/ d_implicit_objects scene = None ->
     exists st',
       initializeGPUData camera (Some scene) st = (Returned tt, st') /\
       d_num_spheres st' = 0%Z /\ d_num_planes st' = 0%Z /\
       d_spheres st' = d_spheres st /\ d_planes st' = d_planes st /\
       d_camera st' = to_GPUCamera camera).
Proof.
  split.
  - apply initializeGPUData_null.
  - intros scene H. eexists. split.
    + apply initializeGPUData_degenerate. exact H.
    + repeat split.
Qed.

Lemma initializeGPUData_null_or_empty_witness :
  exists st',
    initializeGPUData host_camera (Some scene_without_objects)
      (corridor Mirror) = (Returned tt, st') /\
    d_num_spheres st' = 0%Z /\ d_num_planes st' = 0%Z.
Proof.
  destruct (proj2 (initializeGPUData_null_or_empty host_camera (corridor Mirror))
              scene_without_objects) as (st' & H & Hs & Hp & _).
  - left. cbn. lia.
  - exists st'. repeat split; assumption.
Defined.

(** C1, amended.  [initializeGPUData] does not compare the numbers of
    spheres and planes with the capacity of the arrays: for a scene whose
    object array holds at least [implicit_object_count > 0] objects it
    returns normally, whatever those numbers are.  When both numbers are
    within the capacity of sixteen, the counts are published and the leading
    elements of the arrays are the converted spheres and planes. *)
Theorem initializeGPUData_no_capacity_error
    {F Mat : Type} {ops : FloatOps F}
    (camera : Camera_t F) (st : Broadcast F Mat) (scene : Scene_t F Mat)
    (device_objects : list (ImplicitObject_t F Mat)) :
  d_implicit_objects scene = Some device_objects ->
  (0 < implicit_object_count scene <= Z.of_nat (length device_objects))%Z ->
  let objs := firstn (Z.to_nat (implicit_object_count scene)) device_objects in
  exists st',
    initializeGPUData camera (Some scene) st = (Returned tt, st') /\
    ((length (collect_spheres objs) <= capacity)%nat ->
     (length (collect_planes objs) <= capacity)%nat ->
     d_num_spheres st' = Z.of_nat (length (collect_spheres objs)) /\
     d_num_planes st' = Z.of_nat (length (collect_planes objs)) /\
     firstn (length (collect_spheres objs)) (d_spheres st') = collect_spheres objs /\
     firstn (length (collect_planes objs)) (d_planes st') = collect_planes objs).
Proof.
  intros Hp Hc objs. eexists. split.
  - apply (initializeGPUData_objects camera st scene Hp Hc).
  - fold objs. intros Hs Hl. cbn [d_num_spheres d_num_planes d_spheres d_planes].
    repeat split.
    + apply published_prefix. exact Hs.
    + apply published_prefix. exact Hl.
Qed.

Lemma initializeGPUData_no_capacity_error_witness :
  exists st',
    initializeGPUData host_camera (Some small_scene) empty_scene
    = (Returned tt, st') /\
    d_num_spheres st' = 2%Z /\ d_num_planes st' = 1%Z.
Proof.
  destruct (initializeGPUData_no_capacity_error host_camera empty_scene
              small_scene (device_objects :=
                [host_sphere 5; host_plane; AsSphere host_lamp]) eq_refl)
    as (st' & H & Hfit).
  - vm_compute. split; [reflexivity | discriminate].
  - destruct Hfit as (Hs & Hp & _); [vm_compute; lia ..|].
    exists st'. repeat split; assumption.
Defined.

(** C1, as first stated, fails: the upload of seventeen spheres returns
    normally.  The count seventeen is published, the array is left as it
    was, and the scene query of the kernel then reads past the sixteenth
    element. *)
Lemma crowded_upload_returns :
  exists st',
    initializeGPUData host_camera (Some crowded_scene) empty_scene
    = (Returned tt, st') /\
    length (collect_spheres (pointee (d_implicit_objects crowded_scene))) = 17%nat /\
    d_num_spheres st' = 17%Z /\
    d_spheres st' = d_spheres empty_scene /\
    length (d_spheres st') = capacity /\
    intersectScene st' axis_ray = None.
Proof.
  eexists. split; [vm_compute; reflexivity|].
  repeat split; vm_compute; reflexivity.
Qed.

(** ** Runs on concrete inputs

    The definitions evaluated in exact rational arithmetic; the results are
    shown through [this], the underlying fraction. *)

(** With half of the paint peeled and the sample [0.9] above the threshold
    [0.5], the peel branch is taken and the result is the underlay colour. *)
Example paint_peels_when_amount_positive :
  let params :=
    Build_PaintAgingParameters (Q2Qc 0.5) (Q2Qc 0.5) (Q2Qc 0.25) (Q2Qc 0)
      (Color1 (Q2Qc 0.3)) in
  let c := applyPaintAging (Color (Q2Qc 0.8) (Q2Qc 0.4) (Q2Qc 0.2))
             (Vec3 (Q2Qc 1.5) (Q2Qc (-2.25)) (Q2Qc 7)) params (Q2Qc 0.9) in
  this (peel_factor params (Q2Qc 0.9)) = 1%Q /\
  (this (cr c), this (cg c), this (cb c)) = (0.3, 0.3, 0.3)%Q.
Proof. split; vm_compute; reflexivity. Qed.

(** With full oxidation the rust effect does change the colour. *)
Example rust_changes_colour_when_oxidised :
  let c := applyRustEffect (Color (Q2Qc 0.8) (Q2Qc 0.4) (Q2Qc 0.2))
             (Vec3 (Q2Qc 1.5) (Q2Qc (-2.25)) (Q2Qc 7))
             (Build_RustParameters (Q2Qc 1) (Q2Qc 0.5) (Q2Qc 3) (Q2Qc 0)
                (Color (Q2Qc 0.6) (Q2Qc 0.2) (Q2Qc 0.1)))
             (Q2Qc 0.9) in
  Qc_ltb (cr c) (Q2Qc 0.8) = true.
Proof. vm_compute. reflexivity. Qed.

(** Frame 3 blends a white sample into a cell with weight one quarter; the
    fourth component of the cell is overwritten with one. *)
Example accumulate_frame_3 :
  let cell := accumulate 3 (Color1 (Q2Qc 1))
                (make_float4 (Q2Qc 0) (Q2Qc 0.5) (Q2Qc 1) (Q2Qc 7)) in
  (this (f4x cell), this (f4y cell), this (f4z cell), this (f4w cell))
  = (1 # 4, 5 # 8, 1, 1)%Q.
Proof. vm_compute. reflexivity. Qed.

(** At bounce 4 of the diffuse corridor a sample of [0.01], below
    [p = 1/32], lets the path live on with the throughput brought to one. *)
Example roulette_survivor :
  match traceRay_body (corridor Diffuse) 4
          (state_at_bounce_4 Diffuse [Q2Qc 0.01]) with
  | Some (Next s) => Some (this (cr (ps_throughput s)), ps_rand s)
  | _ => None
  end = Some (1%Q, []).
Proof. vm_compute. reflexivity. Qed.

(** The upload of two spheres and a plane: the counts, and the emission of
    the lamp, colour times strength. *)
Example upload_small_scene :
  let r := initializeGPUData host_camera (Some small_scene) empty_scene in
  fst r = Returned tt /\
  d_num_spheres (snd r) = 2%Z /\ d_num_planes (snd r) = 1%Z /\
  map (fun s => (is_emissive s, this (f3x (sph_emission s)),
                 this (f3y (sph_emission s)), this (f3z (sph_emission s))))
      (firstn 2 (d_spheres (snd r)))
  = [(false, 0%Q, 0%Q, 0%Q); (true, 4%Q, 2%Q, 1%Q)] /\
  length (d_spheres (snd r)) = capacity.
Proof. repeat split; vm_compute; reflexivity. Qed.

(** A count larger than the object array makes the copy of the array fail,
    and the failure is thrown. *)
Example upload_short_array :
  fst (initializeGPUData host_camera
         (Some (Build_Scene_t 5 (Some [host_plane]))) empty_scene)
  = Thrown (cuda_failure cudaErrorInvalidValue).
Proof. vm_compute. reflexivity. Qed.

(** A ray aimed away from the only sphere of the scene misses it: the first
    loop body breaks and the radiance is zero. *)
Example ray_aimed_away_is_black :
  option_map (@hit Qc DemoMaterial) (intersectScene lone_sphere ray_aimed_away)
  = Some false /\
  option_map (fun r => (this (cr (fst r)), this (cg (fst r)), this (cb (fst r))))
    (traceRay lone_sphere ray_aimed_away [] 50)
  = Some (0, 0, 0)%Q.
Proof. split; vm_compute; reflexivity. Qed.

(** * Further properties of the code *)

(** ** raytracer_kernel.cu: what a hit record holds *)

Section HitRecords.
Context {F Mat Rand : Type} {ops : FloatOps F} {env : KernelEnv F Mat Rand}.
Variable ray : Ray_t F.
Local Open Scope float_scope.

Lemma intersectPlane_unfold (plane : GPUPlane F Mat) :
  intersectPlane ray plane =
  if fabsf (plane_denom ray plane) <? lit 1e-6 then no_hit
  else if isValidDistance ray (plane_distance ray plane)
       then setFaceNormal ray (Vec3_fromFloat3 (pl_normal plane))
              (set_material (pl_material plane)
                 (set_normal (Vec3_fromFloat3 (pl_normal plane))
                    (set_point (Ray_at ray (plane_distance ray plane))
                       (set_distance (plane_distance ray plane)
                          (set_hit true no_hit)))))
       else no_hit.
Proof.
  unfold intersectPlane, plane_distance, plane_denom, no_hit.
  destruct (flt _ (lit 1e-6)); [reflexivity|].
  destruct (isValidDistance ray _); reflexivity.
Qed.

Lemma hit_no_hit : hit (@no_hit F Mat Rand env) = false.
Proof. reflexivity. Qed.

Lemma intersectSphere_hit (sphere : GPUSphere F Mat) :
  hit (intersectSphere ray sphere) = true ->
  exists root,
    (root = sphere_root_near ray sphere \/ root = sphere_root_far ray sphere) /\
    isValidDistance ray root = true /\
    flt (sphere_discriminant ray sphere) (lit 0) = false /\
    intersectSphere ray sphere = sphere_hit_record ray sphere root no_hit.
Proof.
  rewrite intersectSphere_unfold.
  destruct (flt (sphere_discriminant ray sphere) (lit 0)) eqn:D;
    [rewrite hit_no_hit; discriminate|].
  destruct (isValidDistance ray (sphere_root_near ray sphere)) eqn:V1.
  - intros _. exists (sphere_root_near ray sphere). auto.
  - destruct (isValidDistance ray (sphere_root_far ray sphere)) eqn:V2.
    + intros _. exists (sphere_root_far ray sphere). auto.
    + rewrite hit_no_hit. discriminate.
Qed.

Lemma intersectSphere_miss (sphere : GPUSphere F Mat) :
  hit (intersectSphere ray sphere) = false ->
  intersectSphere ray sphere = no_hit.
Proof.
  rewrite intersectSphere_unfold.
  destruct (flt (sphere_discriminant ray sphere) (lit 0)); [reflexivity|].
  destruct (isValidDistance ray (sphere_root_near ray sphere)).
  - destruct (sphere_hit_record_fields ray sphere
                (sphere_root_near ray sphere) no_hit) as (H & _).
    rewrite H. discriminate.
  - destruct (isValidDistance ray (sphere_root_far ray sphere));
      [|reflexivity].
    destruct (sphere_hit_record_fields ray sphere
                (sphere_root_far ray sphere) no_hit) as (H & _).
    rewrite H. discriminate.
Qed.

Lemma intersectPlane_hit (plane : GPUPlane F Mat) :
  hit (intersectPlane ray plane) = true ->
  flt (fabsf (plane_denom ray plane)) (lit 1e-6) = false /\
  isValidDistance ray (plane_distance ray plane) = true /\
  distance (intersectPlane ray plane) = plane_distance ray plane /\
  point (intersectPlane ray plane) = Ray_at ray (plane_distance ray plane) /\
  material (intersectPlane ray plane) = pl_material plane.
Proof.
  rewrite intersectPlane_unfold.
  destruct (flt (fabsf (plane_denom ray plane)) (lit 1e-6));
    [rewrite hit_no_hit; discriminate|].
  destruct (isValidDistance ray (plane_distance ray plane));
    [|rewrite hit_no_hit; discriminate].
  intros _. repeat split.
Qed.

Lemma intersectPlane_miss (plane : GPUPlane F Mat) :
  hit (intersectPlane ray plane) = false ->
  intersectPlane ray plane = no_hit.
Proof.
  rewrite intersectPlane_unfold.
  destruct (flt (fabsf (plane_denom ray plane)) (lit 1e-6)); [reflexivity|].
  destruct (isValidDistance ray (plane_distance ray plane)); [|reflexivity].
  cbn. discriminate.
Qed.
End HitRecords.

(** X1.  Whatever the validity test of the ray is, a record that either
    intersection test returns with [hit = true] carries a distance the ray
    accepts, the point of the ray at that distance and the material of the
    object; a record returned with [hit = false] is the starting record,
    with no field of the object written into it. *)
Theorem hit_records_are_valid
    {F Mat Rand : Type} {ops : FloatOps F} {env : KernelEnv F Mat Rand}
    (ray : Ray_t F) (sphere : GPUSphere F Mat) (plane : GPUPlane F Mat) :
  let rs := intersectSphere ray sphere in
  let rp := intersectPlane ray plane in
  (hit rs = true ->
   isValidDistance ray (distance rs) = true /\
   point rs = Ray_at ray (distance rs) /\
   material rs = sph_material sphere) /\
  (hit rp = true ->
   isValidDistance ray (distance rp) = true /\
   point rp = Ray_at ray (distance rp) /\
   material rp = pl_material plane) /\
  (hit rs = false -> rs = no_hit) /\
  (hit rp = false -> rp = no_hit).
Proof.
  intros rs rp. repeat split.
  - destruct (intersectSphere_hit ray sphere H) as (root & _ & V & _ & E).
    unfold rs. rewrite E.
    destruct (sphere_hit_record_fields ray sphere root no_hit)
      as (_ & Hd & _). rewrite Hd. exact V.
  - destruct (intersectSphere_hit ray sphere H) as (root & _ & _ & _ & E).
    unfold rs. rewrite E.
    destruct (sphere_hit_record_fields ray sphere root no_hit)
      as (_ & Hd & Hp & _). rewrite Hd, Hp. reflexivity.
  - destruct (intersectSphere_hit ray sphere H) as (root & _ & _ & _ & E).
    unfold rs. rewrite E.
    destruct (sphere_hit_record_fields ray sphere root no_hit)
      as (_ & _ & _ & Hm & _). exact Hm.
  - destruct (intersectPlane_hit ray plane H) as (_ & V & Hd & _).
    unfold rp. rewrite Hd. exact V.
  - destruct (intersectPlane_hit ray plane H) as (_ & _ & Hd & Hp & _).
    unfold rp. rewrite Hd, Hp. reflexivity.
  - destruct (intersectPlane_hit ray plane H) as (_ & _ & _ & _ & Hm).
    exact Hm.
  - apply intersectSphere_miss.
  - apply intersectPlane_miss.
Qed.

Lemma hit_records_are_valid_witness :
  isValidDistance axis_ray
    (distance (intersectPlane axis_ray (plane_at 5 (-1) Mirror))) = true.
Proof.
  destruct (hit_records_are_valid axis_ray (sphere_at 10 2 Diffuse)
              (plane_at 5 (-1) Mirror)) as (_ & H & _).
  apply H. reflexivity.
Defined.

(** ** raytracer_kernel.cu: hits lie on the surfaces, in exact arithmetic *)

Section ExactGeometry.
Context {F Mat Rand : Type} {ops : FloatOps F} {env : KernelEnv F Mat Rand}.
Hypothesis Ffield :
  field_theory (lit 0) (lit 1) fadd fmul fsub fopp fdiv
    (fun x => fdiv (lit 1) x) eq.
Variable ray : Ray_t F.
Local Open Scope float_scope.

Add Field geometry_field : Ffield.

Lemma fdiv_by_one (a : F) : a / lit 1 = a.
Proof. field. exact (F_1_neq_0 Ffield). Qed.

(** The squared distance from the centre of the point at parameter [t]. *)
Lemma sphere_point_expand (sphere : GPUSphere F Mat) (t : F) :
  let c := Vec3_fromFloat3 (center sphere) in
  let oc := vsub (origin ray) c in
  dot (vsub (Ray_at ray t) c) (vsub (Ray_at ray t) c)
  = t * t * dot (direction ray) (direction ray)
    + (t * dot oc (direction ray) + t * dot oc (direction ray))
    + dot oc oc.
Proof.
  destruct ray as [[ox oy oz] [dx dy dz] tmin tmax ty].
  destruct sphere as [[cx cy cz] r m e em].
  unfold Ray_at, vsub, vadd, vscale, dot, Vec3_fromFloat3; cbn. ring.
Qed.

Lemma root_on_sphere (sphere : GPUSphere F Mat) (root : F) :
  dot (direction ray) (direction ray) = lit 1 ->
  sqrtf (sphere_discriminant ray sphere) * sqrtf (sphere_discriminant ray sphere)
  = sphere_discriminant ray sphere ->
  root = sphere_root_near ray sphere \/ root = sphere_root_far ray sphere ->
  dot (vsub (Ray_at ray root) (Vec3_fromFloat3 (center sphere)))
      (vsub (Ray_at ray root) (Vec3_fromFloat3 (center sphere)))
  = radius sphere * radius sphere.
Proof.
  intros Hd Hs Hroot. rewrite sphere_point_expand, Hd.
  unfold sphere_root_near, sphere_root_far in Hroot.
  rewrite !fdiv_by_one in Hroot.
  fold (sphere_half_b ray sphere).
  set (hb := sphere_half_b ray sphere) in *.
  set (s := sqrtf (sphere_discriminant ray sphere)) in *.
  set (occ := dot (vsub (origin ray) (Vec3_fromFloat3 (center sphere)))
                  (vsub (origin ray) (Vec3_fromFloat3 (center sphere)))).
  assert (Hdisc : sphere_discriminant ray sphere
                  = hb * hb - (occ - radius sphere * radius sphere)).
  { unfold sphere_discriminant. fold occ.
    change (dot (vsub (origin ray) (Vec3_fromFloat3 (center sphere)))
                (direction ray)) with hb. ring. }
  assert (Hss : s * s = hb * hb - (occ - radius sphere * radius sphere))
    by (rewrite <- Hdisc; exact Hs).
  destruct Hroot as [-> | ->].
  - transitivity (s * s - hb * hb + occ); [ring|]. rewrite Hss. ring.
  - transitivity (s * s - hb * hb + occ); [ring|]. rewrite Hss. ring.
Qed.

Lemma point_on_plane (plane : GPUPlane F Mat) :
  plane_denom ray plane <> lit 0 ->
  dot (vsub (Ray_at ray (plane_distance ray plane))
            (Vec3_fromFloat3 (pl_point plane)))
      (Vec3_fromFloat3 (pl_normal plane)) = lit 0.
Proof.
  unfold plane_distance, plane_denom.
  destruct ray as [[ox oy oz] [dx dy dz] tmin tmax ty].
  destruct plane as [[px py pz] [nx ny nz] m].
  unfold Ray_at, vsub, vadd, vscale, dot, Vec3_fromFloat3; cbn.
  intros Hn. field. exact Hn.
Qed.
End ExactGeometry.

(** X2.  In exact arithmetic, for a ray whose direction has unit length and
    a discriminant whose square root is exact, the point of every hit the
    sphere test reports lies on the sphere: its squared distance from the
    centre is the squared radius.  The shortcut [a = 1] of the source is
    sound for unit directions. *)
Theorem sphere_hit_on_sphere
    {F Mat Rand : Type} {ops : FloatOps F} {env : KernelEnv F Mat Rand}
    (Ffield : exact_field ops) (ray : Ray_t F) (sphere : GPUSphere F Mat) :
  dot (direction ray) (direction ray) = lit 1 ->
  fmul (sqrtf (sphere_discriminant ray sphere))
       (sqrtf (sphere_discriminant ray sphere))
  = sphere_discriminant ray sphere ->
  hit (intersectSphere ray sphere) = true ->
  let p := point (intersectSphere ray sphere) in
  let c := Vec3_fromFloat3 (center sphere) in
  dot (vsub p c) (vsub p c) = fmul (radius sphere) (radius sphere).
Proof.
  intros Hd Hs Hh.
  destruct (intersectSphere_hit ray sphere Hh) as (root & Hr & _ & _ & E).
  rewrite E.
  destruct (sphere_hit_record_fields ray sphere root no_hit)
    as (_ & _ & Hp & _).
  cbv zeta. rewrite Hp. exact (root_on_sphere Ffield ray sphere Hd Hs Hr).
Qed.

Lemma sphere_hit_on_sphere_witness :
  let p := point (intersectSphere axis_ray (sphere_at 10 2 Diffuse)) in
  let c := Vec3_fromFloat3 (center (sphere_at 10 2 Diffuse)) in
  dot (vsub p c) (vsub p c) = fmul (Q2Qc 2) (Q2Qc 2).
Proof.
  apply (sphere_hit_on_sphere Qc_exact_field axis_ray (sphere_at 10 2 Diffuse)).
  - apply Qc_is_canon. reflexivity.
  - apply Qc_is_canon. reflexivity.
  - reflexivity.
Defined.

(** X3.  In exact arithmetic where the absolute value of zero is below the
    threshold [1e-6], the point of every hit the plane test reports lies on
    the plane: the vector from the point of the plane to the hit is
    orthogonal to the normal.  The parallel guard keeps the division away
    from a zero denominator. *)
Theorem plane_hit_on_plane
    {F Mat Rand : Type} {ops : FloatOps F} {env : KernelEnv F Mat Rand}
    (Ffield : exact_field ops) (ray : Ray_t F) (plane : GPUPlane F Mat) :
  flt (fabsf (lit 0)) (lit 1e-6) = true ->
  hit (intersectPlane ray plane) = true ->
  plane_denom ray plane <> lit 0 /\
  dot (vsub (point (intersectPlane ray plane)) (Vec3_fromFloat3 (pl_point plane)))
      (Vec3_fromFloat3 (pl_normal plane)) = lit 0.
Proof.
  intros Habs Hh.
  destruct (intersectPlane_hit ray plane Hh) as (Hg & _ & _ & Hp & _).
  assert (Hn : plane_denom ray plane <> lit 0).
  { intros E. rewrite E, Habs in Hg. discriminate Hg. }
  split; [exact Hn|]. rewrite Hp. exact (point_on_plane Ffield ray plane Hn).
Qed.

Lemma plane_hit_on_plane_witness :
  dot (vsub (point (intersectPlane axis_ray (plane_at 5 (-1) Mirror)))
            (Vec3_fromFloat3 (pl_point (plane_at 5 (-1) Mirror))))
      (Vec3_fromFloat3 (pl_normal (plane_at 5 (-1) Mirror))) = Q2Qc 0.
Proof.
  apply (plane_hit_on_plane Qc_exact_field axis_ray (plane_at 5 (-1) Mirror));
    reflexivity.
Defined.

(** ** raytracer_kernel.cu: what the scene query reads and returns *)

Section SceneQueryFacts.
Context {F Mat Rand : Type} {ops : FloatOps F} {env : KernelEnv F Mat Rand}.
Local Open Scope float_scope.

Lemma scan_None {A : Type} (test : A -> Intersection_t F Mat) (arr : list A)
    (n i : nat) (best : F * Intersection_t F Mat) :
  scan test arr i n best = None <-> (0 < n /\ length arr < i + n)%nat.
Proof.
  revert i best. induction n as [|n IH]; intros i best; cbn [scan].
  - split; [discriminate | lia].
  - destruct (nth_error arr i) as [obj|] eqn:E.
    + assert (i < length arr)%nat
        by (apply nth_error_Some; rewrite E; discriminate).
      rewrite IH. split; intros [? ?]; [lia|].
      split; [|lia]. destruct n; [lia|lia].
    + apply nth_error_None in E. split; [lia | reflexivity].
Qed.

Lemma scan_Some {A : Type} (test : A -> Intersection_t F Mat) (arr : list A)
    (n i : nat) (best b : F * Intersection_t F Mat) :
  scan test arr i n best = Some b ->
  b = fold_left (fun b c => closer c b)
        (map test (firstn n (skipn i arr))) best.
Proof.
  intros H. destruct n as [|n].
  - cbn in H. injection H as <-. reflexivity.
  - assert (Hb : (i + S n <= length arr)%nat).
    { destruct (Nat.le_gt_cases (i + S n) (length arr)) as [L|G]; [exact L|].
      assert (N : scan test arr i (S n) best = None)
        by (apply scan_None; lia).
      congruence. }
    rewrite (scan_fold test arr (S n) i best Hb) in H.
    injection H as <-. reflexivity.
Qed.

Lemma scan_same_prefix {A : Type} (test : A -> Intersection_t F Mat)
    (arr arr' : list A) (n i : nat) (best : F * Intersection_t F Mat) :
  (forall j, (j < i + n)%nat -> nth_error arr j = nth_error arr' j) ->
  scan test arr i n best = scan test arr' i n best.
Proof.
  revert i best. induction n as [|n IH]; intros i best H; cbn [scan].
  - reflexivity.
  - rewrite <- (H i) by lia.
    destruct (nth_error arr i); [|reflexivity].
    apply IH. intros j Hj. apply H. lia.
Qed.

Lemma firstn_eq_nth_error {A : Type} (l l' : list A) (n j : nat) :
  firstn n l = firstn n l' -> (j < n)%nat -> nth_error l j = nth_error l' j.
Proof.
  revert l l' j. induction n as [|n IH]; intros l l' j H Hj; [lia|].
  destruct l as [|x l], l' as [|x' l']; cbn in H; try discriminate H.
  - reflexivity.
  - injection H as -> H. destruct j as [|j]; [reflexivity|].
    cbn. apply IH; [exact H | lia].
Qed.

(** The pair the scan ends with is the pair it started from or one of the
    records it compared, a hit. *)
Lemma closer_fold_choice (l : list (Intersection_t F Mat))
    (best : F * Intersection_t F Mat) :
  let b := fold_left (fun b c => closer c b) l best in
  b = best \/ (In (snd b) l /\ hit (snd b) = true).
Proof.
  revert best. induction l as [|c l IH]; intros best; cbn [fold_left].
  - left. reflexivity.
  - destruct (IH (closer c best)) as [E | [Hin Hh]].
    + rewrite E. unfold closer.
      destruct (hit c && (distance c <? fst best)) eqn:Hc.
      * right. cbn [snd]. apply andb_prop in Hc as [Hh _].
        split; [left; reflexivity | exact Hh].
      * left. reflexivity.
    + right. split; [right; exact Hin | exact Hh].
Qed.

Lemma intersectScene_Some (st : Broadcast F Mat) (ray : Ray_t F)
    (r : Intersection_t F Mat) :
  intersectScene st ray = Some r ->
  r = snd (fold_left (fun b c => closer c b) (scene_candidates st ray)
             (FLOAT_MAX, no_hit)).
Proof.
  unfold intersectScene, scene_candidates. intros H.
  destruct (scan (intersectSphere ray) _ _ _ _) as [b1|] eqn:E1;
    [|discriminate H].
  destruct (scan (intersectPlane ray) _ _ _ _) as [b2|] eqn:E2;
    [|discriminate H].
  injection H as <-.
  apply scan_Some in E1, E2. cbn [skipn] in E1, E2.
  rewrite fold_left_app. unfold no_hit. rewrite <- E1.
  rewrite E2. reflexivity.
Qed.

Lemma intersectScene_None (st : Broadcast F Mat) (ray : Ray_t F) :
  intersectScene st ray = None <->
  (length (d_spheres st) < Z.to_nat (d_num_spheres st))%nat \/
  (length (d_planes st) < Z.to_nat (d_num_planes st))%nat.
Proof.
  unfold intersectScene.
  destruct (scan (intersectSphere ray) _ _ _ _) as [b1|] eqn:E1.
  - assert (N1 : ~ (length (d_spheres st) < Z.to_nat (d_num_spheres st))%nat).
    { intros L.
      assert (X : scan (intersectSphere ray) (d_spheres st) 0
                    (Z.to_nat (d_num_spheres st))
                    (FLOAT_MAX, set_hit false Intersection_ctor) = None)
        by (apply scan_None; lia).
      congruence. }
    destruct (scan (intersectPlane ray) _ _ _ _) as [b2|] eqn:E2.
    + split; [discriminate|]. intros [L|L]; [contradiction|].
      assert (X : scan (intersectPlane ray) (d_planes st) 0
                    (Z.to_nat (d_num_planes st)) b1 = None)
        by (apply scan_None; lia).
      congruence.
    + apply scan_None in E2. split; [intros _; right; lia | reflexivity].
  - apply scan_None in E1. split; [intros _; left; lia | reflexivity].
Qed.
End SceneQueryFacts.

(** X4.  The record the scene query returns is either the starting record
    (when [hit = false]) or the record one of the published spheres or
    planes produced (when [hit = true]); in the second case its distance is
    one the ray accepts, its point is the point of the ray at that distance
    and its material is the material of that object.  No law of the
    arithmetic is needed. *)
Theorem intersectScene_returns_valid_hit
    {F Mat Rand : Type} {ops : FloatOps F} {env : KernelEnv F Mat Rand}
    (st : Broadcast F Mat) (ray : Ray_t F) (r : Intersection_t F Mat) :
  intersectScene st ray = Some r ->
  (hit r = false -> r = no_hit) /\
  (hit r = true ->
   isValidDistance ray (distance r) = true /\
   point r = Ray_at ray (distance r) /\
   ((exists s,
       In s (firstn (Z.to_nat (d_num_spheres st)) (d_spheres st)) /\
       r = intersectSphere ray s /\ material r = sph_material s)
    \/
    (exists p,
       In p (firstn (Z.to_nat (d_num_planes st)) (d_planes st)) /\
       r = intersectPlane ray p /\ material r = pl_material p))).
Proof.
  intros H. apply intersectScene_Some in H.
  pose proof (closer_fold_choice (scene_candidates st ray) (FLOAT_MAX, no_hit))
    as C. cbv zeta in C.
  set (b := fold_left (fun b c => closer c b) (scene_candidates st ray)
              (FLOAT_MAX, no_hit)) in *.
  subst r. destruct C as [E | [Hin Hh]].
  - rewrite E. cbn [snd]. split; [reflexivity|].
    rewrite hit_no_hit. discriminate.
  - split; [intros Hf; congruence|]. intros _.
    unfold scene_candidates in Hin.
    apply in_app_or in Hin as [Hin|Hin]; apply in_map_iff in Hin
      as (obj & Eobj & Hobj); rewrite <- Eobj in *.
    + destruct (intersectSphere_hit ray obj Hh) as (root & _ & V & _ & E).
      destruct (sphere_hit_record_fields ray obj root no_hit)
        as (_ & Hd & Hp & Hm & _).
      rewrite <- E in Hd, Hp, Hm.
      rewrite Hd, Hp. repeat split; try assumption.
      left. exists obj. repeat split; assumption.
    + destruct (intersectPlane_hit ray obj Hh) as (_ & V & Hd & Hp & Hm).
      rewrite Hd, Hp. repeat split; try assumption.
      right. exists obj. repeat split; assumption.
Qed.

Lemma intersectScene_returns_valid_hit_witness :
  exists r,
    intersectScene three_objects axis_ray = Some r /\
    isValidDistance axis_ray (distance r) = true.
Proof.
  destruct (intersectScene three_objects axis_ray) as [r|] eqn:E;
    [|vm_compute in E; discriminate E].
  exists r. split; [reflexivity|].
  apply (intersectScene_returns_valid_hit three_objects axis_ray E).
  vm_compute in E. injection E as <-. reflexivity.
Defined.

(** X5.  The scene query reads the arrays below the published counts only:
    two broadcast states with the same counts and the same leading elements
    give the same answer for every ray, whatever the cameras and whatever
    the arrays hold from the counts on. *)
Theorem intersectScene_reads_published_prefix
    {F Mat Rand : Type} {ops : FloatOps F} {env : KernelEnv F Mat Rand}
    (st st' : Broadcast F Mat) (ray : Ray_t F) :
  d_num_spheres st = d_num_spheres st' ->
  d_num_planes st = d_num_planes st' ->
  firstn (Z.to_nat (d_num_spheres st)) (d_spheres st)
  = firstn (Z.to_nat (d_num_spheres st)) (d_spheres st') ->
  firstn (Z.to_nat (d_num_planes st)) (d_planes st)
  = firstn (Z.to_nat (d_num_planes st)) (d_planes st') ->
  intersectScene st ray = intersectScene st' ray.
Proof.
  intros Hs Hp Es Ep. unfold intersectScene. rewrite <- Hs, <- Hp.
  rewrite (scan_same_prefix (intersectSphere ray) (d_spheres st)
             (d_spheres st') (Z.to_nat (d_num_spheres st)) 0).
  2:{ intros j Hj. apply (firstn_eq_nth_error _ _ Es). lia. }
  destruct (scan (intersectSphere ray) (d_spheres st') _ _ _) as [b|];
    [|reflexivity].
  rewrite (scan_same_prefix (intersectPlane ray) (d_planes st)
             (d_planes st') (Z.to_nat (d_num_planes st)) 0).
  2:{ intros j Hj. apply (firstn_eq_nth_error _ _ Ep). lia. }
  reflexivity.
Qed.

Lemma intersectScene_reads_published_prefix_witness :
  intersectScene (corridor Mirror) axis_ray
  = intersectScene
      (Build_Broadcast demo_camera (d_spheres three_objects)
         (d_planes (corridor Mirror)) 0 2) axis_ray.
Proof.
  apply (intersectScene_reads_published_prefix (corridor Mirror)
           (Build_Broadcast demo_camera (d_spheres three_objects)
              (d_planes (corridor Mirror)) 0 2) axis_ray); reflexivity.
Defined.

(** ** raytracer_kernel.cu: when a path is traced to the end *)

Section PathFacts.
Context {F Mat Rand : Type} {ops : FloatOps F} {env : KernelEnv F Mat Rand}.
Variable st : Broadcast F Mat.

Lemma traceRay_body_None (depth : Z) (s : @PathState F Rand) :
  traceRay_body st depth s = None <-> intersectScene st (ps_ray s) = None.
Proof.
  unfold traceRay_body.
  destruct (intersectScene st (ps_ray s)) as [isect|]; [|tauto].
  split; [|discriminate]. intros H. exfalso.
  destruct (hit isect); cbn [negb] in H; [|discriminate H].
  destruct (scatter _ _ _ _) as [[srec|] rand]; [|discriminate H].
  destruct (is_specular srec); [discriminate H|].
  destruct (3 <? depth)%Z; [|discriminate H].
  destruct (curand_uniform rand) as [u rand'].
  destruct (flt _ u); discriminate H.
Qed.

Lemma traceRay_loop_None (fuel : nat) (depth : Z) (s : @PathState F Rand) :
  traceRay_loop st fuel depth s = None <->
  (0 < fuel)%nat /\ ~ within_arrays st.
Proof.
  assert (Q : forall ray, intersectScene st ray = None <-> ~ within_arrays st).
  { intros ray. rewrite intersectScene_None. unfold within_arrays. lia. }
  revert depth s. induction fuel as [|fuel IH]; intros depth s;
    cbn [traceRay_loop].
  - split; [discriminate | lia].
  - destruct (traceRay_body st depth s) as [[s'|s']|] eqn:E.
    + split; [discriminate|]. intros [_ N].
      apply Q with (ray := ps_ray s) in N.
      apply traceRay_body_None with (depth := depth) in N. congruence.
    + rewrite IH. split; [intros [_ N]; split; [lia | exact N]|].
      intros [_ N]. exfalso.
      apply Q with (ray := ps_ray s) in N.
      apply traceRay_body_None with (depth := depth) in N. congruence.
    + apply traceRay_body_None in E. apply Q in E.
      split; [intros _; split; [lia | exact E] | reflexivity].
Qed.
End PathFacts.

(** X7.  When the depth budget is not positive, or the first scene query
    reports no hit, [traceRay] returns black and leaves the generator as it
    was: the background contributes nothing and no sample is drawn. *)
Theorem traceRay_without_bounce_is_black
    {F Mat Rand : Type} {ops : FloatOps F} {env : KernelEnv F Mat Rand}
    (st : Broadcast F Mat) (ray : Ray_t F) (rand_state : Rand) (max_depth : Z) :
  (max_depth <= 0)%Z \/
  (exists r, intersectScene st ray = Some r /\ hit r = false) ->
  traceRay st ray rand_state max_depth
  = Some (Color (lit 0) (lit 0) (lit 0), rand_state).
Proof.
  intros [Hd | (r & Hq & Hh)]; unfold traceRay.
  - replace (Z.to_nat max_depth) with 0%nat by lia. reflexivity.
  - destruct (Z.to_nat max_depth) as [|fuel]; [reflexivity|].
    cbn [traceRay_loop]. unfold traceRay_body. cbn [ps_ray].
    rewrite Hq, Hh. reflexivity.
Qed.

Lemma traceRay_without_bounce_is_black_witness :
  traceRay lone_sphere ray_aimed_away [Q2Qc 0.5] 50
  = Some (Color (Q2Qc 0) (Q2Qc 0) (Q2Qc 0), [Q2Qc 0.5]).
Proof.
  refine (traceRay_without_bounce_is_black lone_sphere ray_aimed_away
            [Q2Qc 0.5] (max_depth := 50) _).
  right. eexists. split; [vm_compute; reflexivity | reflexivity].
Defined.

(** X8.  In exact arithmetic, when the first scene query hits an object
    whose material does not scatter, [traceRay] returns exactly the light
    that material emits at the hit, with the generator as [scatter] left
    it, for every positive depth budget. *)
Theorem traceRay_first_hit_on_emitter
    {F Mat Rand : Type} {ops : FloatOps F} {env : KernelEnv F Mat Rand}
    (Ffield : exact_field ops)
    (st : Broadcast F Mat) (ray : Ray_t F) (rand_state rand' : Rand)
    (max_depth : Z) (r : Intersection_t F Mat) :
  (0 < max_depth)%Z ->
  intersectScene st ray = Some r ->
  hit r = true ->
  scatter (material r) ray r rand_state = (None, rand') ->
  traceRay st ray rand_state max_depth
  = Some (emitted (material r) ray r, rand').
Proof.
  intros Hd Hq Hh Hs. unfold traceRay.
  destruct (Z.to_nat max_depth) as [|fuel] eqn:E; [lia|].
  cbn [traceRay_loop]. unfold traceRay_body.
  cbn [ps_ray ps_rand ps_final_color ps_throughput].
  rewrite Hq, Hh. cbn [negb]. rewrite Hs. cbn [ps_final_color ps_rand].
  f_equal. f_equal.
  destruct (emitted (material r) ray r) as [er eg eb].
  unfold cadd, cmul, Color1; cbn [cr cg cb].
  destruct Ffield as [R _ _ _].
  rewrite !(Rmul_1_l R), !(Radd_0_l R). reflexivity.
Qed.

Lemma traceRay_first_hit_on_emitter_witness :
  exists r,
    intersectScene (corridor Lamp) axis_ray = Some r /\
    traceRay (corridor Lamp) axis_ray [] 50
    = Some (emitted (material r) axis_ray r, []).
Proof.
  destruct (intersectScene (corridor Lamp) axis_ray) as [r|] eqn:E;
    [|vm_compute in E; discriminate E].
  exists r. split; [reflexivity|].
  refine (traceRay_first_hit_on_emitter Qc_exact_field (corridor Lamp)
            axis_ray [] (rand' := []) (max_depth := 50) (r := r) _ _ _ _).
  - lia.
  - exact E.
  - vm_compute in E. injection E as <-. reflexivity.
  - vm_compute in E. injection E as <-. reflexivity.
Defined.

(** ** raytracer_kernel.cu: threads, cells and seeds *)

Lemma wrap32_idem (z : Z) : wrap32 (wrap32 z) = wrap32 z.
Proof. unfold wrap32. apply Z.mod_mod. lia. Qed.

Lemma wrap32_add (a b : Z) : wrap32 (wrap32 a + wrap32 b) = wrap32 (a + b).
Proof. unfold wrap32. symmetry. apply Z.add_mod. lia. Qed.

Lemma wrap32_add_l (a b : Z) : wrap32 (wrap32 a + b) = wrap32 (a + b).
Proof. unfold wrap32. apply Z.add_mod_idemp_l. lia. Qed.

Lemma wrap32_to_int32 (a b : Z) : wrap32 (a + to_int32 b) = wrap32 (a + b).
Proof.
  unfold wrap32, to_int32.
  pose proof (Z.div_mod (b + 2 ^ 31) (2 ^ 32) ltac:(lia)) as D.
  replace (a + ((b + 2 ^ 31) mod 2 ^ 32 - 2 ^ 31))%Z
    with (a + b + - ((b + 2 ^ 31) / 2 ^ 32) * 2 ^ 32)%Z by lia.
  apply Z_mod_plus_full.
Qed.


Lemma wrap32_negative (n : Z) :
  (- 2 ^ 31 <= n < 0)%Z -> wrap32 n = (n + 2 ^ 32)%Z.
Proof.
  intros H. unfold wrap32.
  replace n with (n + 2 ^ 32 + (- 1) * 2 ^ 32)%Z at 1 by lia.
  rewrite Z_mod_plus_full. apply Z.mod_small. lia.
Qed.

(** For a thread with [int] coordinates and an image of at most [2^31]
    pixels, the bounds test of the kernel passes exactly inside the image. *)
Lemma image_test (th : Thread) (width height : Z) :
  (width * height <= 2 ^ 31)%Z ->
  is_int (thread_x th) -> is_int (thread_y th) ->
  (width <=? wrap32 (thread_x th))%Z || (height <=? wrap32 (thread_y th))%Z
  = false
  <-> in_image th width height.
Proof.
  intros Hwh Ix Iy. unfold is_int in Ix, Iy. split.
  - intros G. apply orb_false_iff in G as [Gx Gy].
    apply Z.leb_gt in Gx, Gy.
    assert (Bx : (0 <= wrap32 (thread_x th))%Z)
      by (unfold wrap32; apply Z.mod_pos_bound; lia).
    assert (By : (0 <= wrap32 (thread_y th))%Z)
      by (unfold wrap32; apply Z.mod_pos_bound; lia).
    assert (width <= width * height)%Z by nia.
    assert (height <= width * height)%Z by nia.
    assert (Px : (0 <= thread_x th)%Z).
    { destruct (Z_lt_le_dec (thread_x th) 0) as [L|L]; [|exact L].
      rewrite wrap32_negative in Gx by lia. lia. }
    assert (Py : (0 <= thread_y th)%Z).
    { destruct (Z_lt_le_dec (thread_y th) 0) as [L|L]; [|exact L].
      rewrite wrap32_negative in Gy by lia. lia. }
    rewrite wrap32_small in Gx, Gy by lia.
    unfold in_image. lia.
  - intros Hin. destruct (in_image_unsigned Hwh Hin) as [-> ->].
    destruct Hin as [[_ Hx] [_ Hy]].
    apply Z.leb_gt in Hx, Hy. rewrite Hx, Hy. reflexivity.
Qed.

Lemma pixel_index_injective (a b : Thread) (width height : Z) :
  (width * height <= 2 ^ 31)%Z ->
  in_image a width height -> in_image b width height ->
  pixel_index a width = pixel_index b width ->
  thread_x a = thread_x b /\ thread_y a = thread_y b.
Proof.
  intros Hwh Ha Hb E.
  destruct (pixel_index_in_image Hwh Ha) as [Ea _].
  destruct (pixel_index_in_image Hwh Hb) as [Eb _].
  rewrite Ea, Eb in E.
  destruct Ha as [[? ?] [? ?]], Hb as [[? ?] [? ?]].
  assert (thread_y a = thread_y b) by nia.
  split; [nia | assumption].
Qed.

Lemma thread_seed_sum (th : Thread) (width height frame_count : Z) :
  thread_seed th width height frame_count
  = wrap32 (frame_count * width * height
            + (thread_y th * width + thread_x th)
            + (thread_y th * thread_row th + thread_x th)).
Proof.
  unfold thread_seed, pixel_index.
  rewrite wrap32_to_int32, wrap32_add.
  replace (frame_count * width * height
           + wrap32 (thread_y th * width + thread_x th)
           + (thread_y th * thread_row th + thread_x th))%Z
    with (wrap32 (thread_y th * width + thread_x th)
          + (frame_count * width * height
             + (thread_y th * thread_row th + thread_x th)))%Z by lia.
  rewrite wrap32_add_l. f_equal. lia.
Qed.



(** X10.  Within one frame, when the grid is at least as wide as the image
    and the seed arithmetic does not wrap, the threads inside the image get
    pairwise different seeds: the seed is
    [frame_count * width * height + y * (width + row) + 2 * x]. *)
Theorem thread_seeds_differ_within_frame
    {F Mat Rand : Type} {env : KernelEnv F Mat Rand}
    (a b : Thread) (width height frame_count : Z) :
  (0 <= frame_count)%Z ->
  (width <= thread_row a)%Z -> thread_row b = thread_row a ->
  (frame_count * width * height + height * (width + thread_row a) < 2 ^ 32)%Z ->
  in_image a width height -> in_image b width height ->
  initRand a (wrap32 (frame_count * width * height + pixel_index a width))
  = curand_init (thread_seed a width height frame_count) /\
  thread_seed a width height frame_count
  = (frame_count * width * height
     + thread_y a * (width + thread_row a) + 2 * thread_x a)%Z /\
  (thread_seed a width height frame_count
   = thread_seed b width height frame_count ->
   thread_x a = thread_x b /\ thread_y a = thread_y b).
Proof.
  intros Hfc Hrow Hrb Hbound Ha Hb.
  assert (S : forall t, thread_row t = thread_row a -> in_image t width height ->
              thread_seed t width height frame_count
              = (frame_count * width * height
                 + thread_y t * (width + thread_row a) + 2 * thread_x t)%Z).
  { intros t Hr [[? ?] [? ?]]. rewrite thread_seed_sum, Hr.
    assert (0 <= frame_count * width)%Z by nia.
    assert (0 <= frame_count * width * height)%Z by nia.
    assert (0 <= thread_y t * width)%Z by nia.
    assert (0 <= thread_y t * thread_row a)%Z by nia.
    assert ((thread_y t + 1) * width <= height * width)%Z by nia.
    assert ((thread_y t + 1) * thread_row a <= height * thread_row a)%Z by nia.
    rewrite wrap32_small; lia. }
  split; [reflexivity|]. split; [apply S; [reflexivity | exact Ha]|].
  rewrite (S a eq_refl Ha), (S b Hrb Hb).
  destruct Ha as [[? ?] [? ?]], Hb as [[? ?] [? ?]]. intros E.
  assert (thread_y a = thread_y b).
  { destruct (Z.lt_trichotomy (thread_y a) (thread_y b)) as [L|[L|L]];
      [exfalso | exact L | exfalso].
    - assert ((thread_y a + 1) * (width + thread_row a)
              <= thread_y b * (width + thread_row a))%Z by nia. lia.
    - assert ((thread_y b + 1) * (width + thread_row a)
              <= thread_y a * (width + thread_row a))%Z by nia. lia. }
  split; [nia | assumption].
Qed.

Lemma thread_seeds_differ_within_frame_witness :
  thread_seed (Build_Thread 1 2 8) 8 6 3 = 178%Z.
Proof.
  refine (proj1 (proj2 (thread_seeds_differ_within_frame (env := demo_env)
                          (a := Build_Thread 1 2 8) (b := Build_Thread 5 0 8)
                          (width := 8) (height := 6) (frame_count := 3)
                          _ _ _ _ _ _))); unfold in_image; cbn; lia.
Defined.

(** X11.  Seeds repeat from one frame to the next.  When the grid is as
    wide as the image and the height is even, the thread at the left end of
    the middle row of a frame gets the seed that the thread at the origin
    gets in the following frame, so the two draw the same samples. *)
Theorem thread_seed_reused_in_next_frame
    {F Mat Rand : Type} {env : KernelEnv F Mat Rand}
    (width half frame_count : Z) :
  let height := (2 * half)%Z in
  let middle := Build_Thread 0 half width in
  let first := Build_Thread 0 0 width in
  thread_seed middle width height frame_count
  = thread_seed first width height (frame_count + 1) /\
  initRand middle
    (wrap32 (frame_count * width * height + pixel_index middle width))
  = initRand first
      (wrap32 ((frame_count + 1) * width * height + pixel_index first width)).
Proof.
  intros height middle first.
  assert (E : thread_seed middle width height frame_count
              = thread_seed first width height (frame_count + 1)).
  { rewrite !thread_seed_sum. cbn [thread_x thread_y thread_row middle first].
    f_equal. unfold height. ring. }
  split; [exact E|].
  change (curand_init (thread_seed middle width height frame_count)
          = curand_init (thread_seed first width height (frame_count + 1))).
  rewrite E. reflexivity.
Qed.

(** ** raytracer_kernel.cu: a launch, and the frames of a pixel *)

Section LaunchFacts.
Context {F Mat Rand : Type} {ops : FloatOps F} {env : KernelEnv F Mat Rand}.
Variable st : Broadcast F Mat.
Variables width height frame_count : Z.
Hypothesis image_fits : (width * height <= 2 ^ 31)%Z.

Lemma run_threads_cells (ths : list Thread) :
  (forall th, In th ths -> is_int (thread_x th) /\ is_int (thread_y th)) ->
  NoDup (map (fun th => (thread_x th, thread_y th)) ths) ->
  (forall th, In th ths -> in_image th width height ->
     thread_sample st th width height frame_count <> None) ->
  forall output, exists out',
  run_threads st ths output width height frame_count = Some out' /\
  (forall th, In th ths -> in_image th width height ->
     exists c,
       thread_sample st th width height frame_count = Some c /\
       out' (pixel_index th width)
       = accumulate frame_count c (output (pixel_index th width))) /\
  (forall i,
     (forall th, In th ths -> in_image th width height ->
                 pixel_index th width <> i) ->
     out' i = output i).
Proof.
  induction ths as [|th rest IH]; intros Hint Hnd Hret output.
  - exists output. split; [reflexivity|].
    split; [intros th []|reflexivity].
  - cbn [run_threads]. cbn [map] in Hnd.
    apply NoDup_cons_iff in Hnd as [Hfresh Hnd].
    assert (Hint' : forall t, In t rest ->
                      is_int (thread_x t) /\ is_int (thread_y t))
      by (intros t Ht; apply Hint; right; exact Ht).
    assert (Hret' : forall t, In t rest -> in_image t width height ->
                      thread_sample st t width height frame_count <> None)
      by (intros t Ht; apply Hret; right; exact Ht).
    destruct (Hint th (or_introl eq_refl)) as [Ix Iy].
    assert (Hother : forall t, In t rest -> in_image th width height ->
                       in_image t width height ->
                       pixel_index t width <> pixel_index th width).
    { intros t Ht Hin Hin' E.
      destruct (pixel_index_injective image_fits Hin' Hin E) as [Ex Ey].
      apply Hfresh. apply in_map_iff. exists t.
      split; [rewrite Ex, Ey; reflexivity | exact Ht]. }
    rewrite renderKernel_unfold.
    destruct ((width <=? wrap32 (thread_x th))%Z
              || (height <=? wrap32 (thread_y th))%Z) eqn:G.
    + (* the thread lies outside the image *)
      assert (Hout : ~ in_image th width height).
      { intros Hin. apply (image_test th width height image_fits Ix Iy) in Hin.
        congruence. }
      destruct (IH Hint' Hnd Hret' output) as (out' & Hrun & IH1 & IH2).
      exists out'. split; [exact Hrun|]. split.
      * intros t [<-|Ht] Hin; [contradiction | exact (IH1 t Ht Hin)].
      * intros i Hi. apply IH2. intros t Ht Hin.
        apply Hi; [right; exact Ht | exact Hin].
    + (* the thread lies inside the image *)
      assert (Hin : in_image th width height)
        by (apply (image_test th width height image_fits Ix Iy); exact G).
      destruct (thread_sample st th width height frame_count) as [c|] eqn:S;
        [|exfalso; exact (Hret th (or_introl eq_refl) Hin S)].
      destruct (IH Hint' Hnd Hret'
                  (store output (pixel_index th width)
                     (accumulate frame_count c
                        (output (pixel_index th width)))))
        as (out' & Hrun & IH1 & IH2).
      exists out'. split; [exact Hrun|]. split.
      * intros t [<-|Ht] Hin'.
        -- exists c. split; [exact S|].
           rewrite IH2.
           ++ unfold store. rewrite Z.eqb_refl. reflexivity.
           ++ intros t Ht Hin''. exact (Hother t Ht Hin Hin'').
        -- destruct (IH1 t Ht Hin') as (c' & S' & E).
           exists c'. split; [exact S'|]. rewrite E. f_equal.
           unfold store.
           destruct (pixel_index t width =? pixel_index th width)%Z eqn:Q;
             [|reflexivity].
           apply Z.eqb_eq in Q. exfalso. exact (Hother t Ht Hin Hin' Q).
      * intros i Hi. rewrite IH2.
        -- unfold store.
           destruct (i =? pixel_index th width)%Z eqn:Q; [|reflexivity].
           apply Z.eqb_eq in Q. exfalso.
           apply (Hi th (or_introl eq_refl) Hin). symmetry. exact Q.
        -- intros t Ht Hin'. apply Hi; [right; exact Ht | exact Hin'].
Qed.
End LaunchFacts.

(** X12.  A launch over distinct threads with [int] coordinates, in
    whatever order they run, on an image of at most [2^31] pixels.  When
    the trace of every thread inside the image returns a colour, the launch
    ends; the cell [y * width + x] of every such thread then holds the
    accumulation of that thread's sample with the previous content of that
    very cell, and every cell no such thread owns is as before.  The result
    does not depend on the order of the threads. *)
Theorem launch_writes_each_cell_once
    {F Mat Rand : Type} {ops : FloatOps F} {env : KernelEnv F Mat Rand}
    (st : Broadcast F Mat) (ths : list Thread) (output : Z -> float4 F)
    (width height frame_count : Z) :
  (width * height <= 2 ^ 31)%Z ->
  (forall th, In th ths -> is_int (thread_x th) /\ is_int (thread_y th)) ->
  NoDup (map (fun th => (thread_x th, thread_y th)) ths) ->
  (forall th, In th ths -> in_image th width height ->
     thread_sample st th width height frame_count <> None) ->
  let cell := fun th => (thread_y th * width + thread_x th)%Z in
  exists out',
    run_threads st ths output width height frame_count = Some out' /\
    (forall th, In th ths -> in_image th width height ->
       exists c,
         thread_sample st th width height frame_count = Some c /\
         out' (cell th) = accumulate frame_count c (output (cell th))) /\
    (forall i,
       (forall th, In th ths -> in_image th width height -> cell th <> i) ->
       out' i = output i).
Proof.
  intros Hwh Hint Hnd Hret cell.
  destruct (run_threads_cells st frame_count Hwh ths Hint Hnd Hret output)
    as (out' & Hrun & H1 & H2).
  exists out'. split; [exact Hrun|]. split.
  - intros th Ht Hin. destruct (H1 th Ht Hin) as (c & S & E).
    exists c. split; [exact S|].
    destruct (pixel_index_in_image Hwh Hin) as [P _].
    rewrite P in E. exact E.
  - intros i Hi. apply H2. intros th Ht Hin.
    destruct (pixel_index_in_image Hwh Hin) as [-> _].
    exact (Hi th Ht Hin).
Qed.

Lemma launch_writes_each_cell_once_witness :
  exists out',
    run_threads lone_sphere
      [Build_Thread 1 0 2; Build_Thread 0 0 2; Build_Thread 2 0 2]
      (fun _ => make_float4 (Q2Qc 0) (Q2Qc 0) (Q2Qc 0) (Q2Qc 0)) 2 1 0
    = Some out'.
Proof.
  destruct (launch_writes_each_cell_once lone_sphere
              [Build_Thread 1 0 2; Build_Thread 0 0 2; Build_Thread 2 0 2]
              (fun _ => make_float4 (Q2Qc 0) (Q2Qc 0) (Q2Qc 0) (Q2Qc 0))
              (width := 2) (height := 1) 0) as (out' & H & _).
  - vm_compute. discriminate.
  - intros th [<-|[<-|[<-|[]]]]; unfold is_int; cbn; lia.
  - cbn. repeat constructor; cbn; intuition congruence.
  - intros th [<-|[<-|[<-|[]]]] _; vm_compute; discriminate.
  - exists out'. exact H.
Defined.

Section FrameMean.
Context {F : Type} {ops : FloatOps F}.
Hypothesis Ffield :
  field_theory (lit 0) (lit 1) fadd fmul fsub fopp fdiv
    (fun x => fdiv (lit 1) x) eq.
Hypothesis Hemb : integer_embedding ops.
Local Open Scope float_scope.

Add Field mean_field : Ffield.

Lemma accumulate_mean_step (n : Z) (c total : Color_t F) :
  (0 < n)%Z -> (n + 1 < 2 ^ 32)%Z ->
  accumulate n c (mean_cell total (of_int n))
  = mean_cell (cadd total c) (of_int (n + 1)).
Proof.
  intros Hn Hb. unfold accumulate, blend_weight, mean_cell.
  apply Z.ltb_lt in Hn as Hn'. rewrite Hn'.
  rewrite wrap32_small by lia.
  pose proof (of_int_pos Hemb Hn) as N0.
  assert (N1 : of_int (n + 1) <> lit 0) by (apply (of_int_pos Hemb); lia).
  rewrite (of_int_add Hemb), (of_int_one Hemb) in *.
  destruct c as [r g b], total as [tr tg tb].
  unfold cadd, cscale; cbn [cr cg cb f4x f4y f4z].
  f_equal; field; split; assumption.
Qed.

Lemma accumulate_frames_mean (rest : list (Color_t F)) (n : Z)
    (total : Color_t F) :
  (0 < n)%Z -> (n + Z.of_nat (length rest) < 2 ^ 32)%Z ->
  accumulate_frames n rest (mean_cell total (of_int n))
  = mean_cell (fold_left cadd rest total) (of_int (n + Z.of_nat (length rest))).
Proof.
  revert n total. induction rest as [|c rest IH]; intros n total Hn Hb.
  - cbn. rewrite Z.add_0_r. reflexivity.
  - cbn [accumulate_frames fold_left length] in *.
    rewrite accumulate_mean_step by lia.
    rewrite IH by lia. f_equal. f_equal. lia.
Qed.

Lemma accumulate_first_frame (c : Color_t F) (cell : float4 F) :
  accumulate 0 c cell = mean_cell (cadd (Color1 (lit 0)) c) (of_int 1).
Proof.
  unfold accumulate, mean_cell. rewrite (of_int_one Hemb).
  destruct c as [r g b]. unfold cadd, Color1; cbn.
  f_equal; field; exact (F_1_neq_0 Ffield).
Qed.
End FrameMean.

(** X13.  Progressive accumulation computes the running mean.  In exact
    arithmetic with a faithful conversion of integers, after the frames
    [0, 1, ..., N] of one pixel (fewer than [2^32] frames) the cell holds
    the sum of the [N + 1] samples divided by [N + 1], whatever it held
    before frame 0, and its fourth component is one. *)
Theorem accumulate_frames_is_mean
    {F : Type} {ops : FloatOps F}
    (Ffield : exact_field ops) (Hemb : integer_embedding ops)
    (samples : list (Color_t F)) (cell : float4 F) :
  samples <> [] ->
  (Z.of_nat (length samples) < 2 ^ 32)%Z ->
  accumulate_frames 0 samples cell
  = mean_cell (color_sum samples) (of_int (Z.of_nat (length samples))).
Proof.
  intros Hne Hb. destruct samples as [|c rest]; [congruence|].
  cbn [accumulate_frames length] in *. unfold color_sum. cbn [fold_left].
  rewrite (accumulate_first_frame Ffield Hemb).
  change (0 + 1)%Z with 1%Z.
  rewrite (accumulate_frames_mean Ffield Hemb) by lia.
  f_equal. f_equal. lia.
Qed.

Lemma Qc_integer_embedding : integer_embedding Qc_ops.
Proof.
  constructor; simpl.
  - reflexivity.
  - intros a b. unfold Qcplus. apply Q2Qc_eq_iff.
    cbn [this Q2Qc]. rewrite !Qred_correct, inject_Z_plus. reflexivity.
  - intros n Hn E. apply Q2Qc_eq_iff in E.
    unfold Qeq in E. cbn in E. lia.
Qed.

Lemma accumulate_frames_is_mean_witness :
  accumulate_frames 0
    [Color1 (Q2Qc 1); Color1 (Q2Qc 0); Color (Q2Qc 0.5) (Q2Qc 0) (Q2Qc 1)]
    (make_float4 (Q2Qc 9) (Q2Qc 9) (Q2Qc 9) (Q2Qc 9))
  = mean_cell
      (color_sum
         [Color1 (Q2Qc 1); Color1 (Q2Qc 0); Color (Q2Qc 0.5) (Q2Qc 0) (Q2Qc 1)])
      (of_int 3).
Proof.
  refine (accumulate_frames_is_mean Qc_exact_field Qc_integer_embedding
            (samples := [Color1 (Q2Qc 1); Color1 (Q2Qc 0);
                         Color (Q2Qc 0.5) (Q2Qc 0) (Q2Qc 1)])
            (make_float4 (Q2Qc 9) (Q2Qc 9) (Q2Qc 9) (Q2Qc 9)) _ _).
  - discriminate.
  - vm_compute. reflexivity.
Defined.

(** ** raytracer_kernel.cu: more on the upload *)

Lemma skipn_length_app {A : Type} (l t : list A) :
  skipn (length l) (l ++ t) = t.
Proof. induction l as [|x l IH]; [reflexivity | exact IH]. Qed.

Lemma cudaMemcpyToSymbol_array_twice {A : Type} (symbol src : list A) :
  snd (cudaMemcpyToSymbol_array (snd (cudaMemcpyToSymbol_array symbol src)) src)
  = snd (cudaMemcpyToSymbol_array symbol src).
Proof.
  unfold cudaMemcpyToSymbol_array.
  destruct (length src <=? capacity)%nat; cbn [snd]; [|reflexivity].
  rewrite skipn_length_app. reflexivity.
Qed.

Lemma cudaMemcpyToSymbol_array_length {A : Type} (symbol src : list A) :
  length symbol = capacity ->
  length (snd (cudaMemcpyToSymbol_array symbol src)) = capacity.
Proof.
  intros H. unfold cudaMemcpyToSymbol_array.
  destruct (length src <=? capacity)%nat eqn:E; cbn [snd]; [|exact H].
  apply Nat.leb_le in E. rewrite length_app, length_skipn. lia.
Qed.

Lemma collect_lengths {F Mat : Type} {ops : FloatOps F}
    (objs : list (ImplicitObject_t F Mat)) :
  (length (collect_spheres objs) + length (collect_planes objs)
   <= length objs)%nat.
Proof.
  induction objs as [|[s|p|] objs IH]; cbn [collect_spheres collect_planes length];
    lia.
Qed.

Section UploadCases.
Context {F Mat : Type} {ops : FloatOps F}.
Variable camera : Camera_t F.
Variable st : Broadcast F Mat.

Lemma initializeGPUData_copy_fails (scene : Scene_t F Mat)
    (device_objects : list (ImplicitObject_t F Mat)) :
  d_implicit_objects scene = Some device_objects ->
  (0 < implicit_object_count scene)%Z ->
  (Z.of_nat (length device_objects) < implicit_object_count scene)%Z ->
  initializeGPUData camera (Some scene) st
  = (Thrown (cuda_failure cudaErrorInvalidValue),
     Build_Broadcast (to_GPUCamera camera) (d_spheres st) (d_planes st)
       (d_num_spheres st) (d_num_planes st)).
Proof.
  intros Hp Hpos Hlen.
  unfold initializeGPUData. cbn [CUDA_CHECK bind ret].
  rewrite Hp. cbn [is_null pointee].
  apply Z.leb_gt in Hpos. rewrite Hpos. cbn [orb].
  unfold try_rethrow, bind, cudaMemcpy_objects.
  apply Z.leb_gt in Hlen. rewrite Hlen. reflexivity.
Qed.

Lemma upload_cases (d_scene : option (Scene_t F Mat)) : upload_case d_scene.
Proof.
  destruct d_scene as [scene|]; [|apply upload_null; reflexivity].
  destruct (Z_le_gt_dec (implicit_object_count scene) 0) as [L|G].
  - eapply upload_degenerate; [reflexivity | left; exact L].
  - destruct (d_implicit_objects scene) as [objs|] eqn:E.
    + destruct (Z_lt_le_dec (Z.of_nat (length objs))
                  (implicit_object_count scene)) as [S|S].
      * eapply upload_failed_copy; [reflexivity | exact E | lia | exact S].
      * eapply upload_objects; [reflexivity | exact E | lia].
    + eapply upload_degenerate; [reflexivity | right; exact E].
Qed.
End UploadCases.

(** X14.  Uploading the same camera and scene handle a second time changes
    nothing: the second call ends as the first did, returning or throwing
    the same exception, and leaves the broadcast state the first call
    left. *)
Theorem initializeGPUData_idempotent
    {F Mat : Type} {ops : FloatOps F}
    (camera : Camera_t F) (d_scene : option (Scene_t F Mat))
    (st : Broadcast F Mat) :
  initializeGPUData camera d_scene
    (snd (initializeGPUData camera d_scene st))
  = initializeGPUData camera d_scene st.
Proof.
  destruct (upload_cases d_scene)
    as [-> | scene -> H | scene objs -> Hp Hpos Hlen | scene objs -> Hp Hc].
  - reflexivity.
  - rewrite !(initializeGPUData_degenerate camera _ scene H). reflexivity.
  - rewrite !(initializeGPUData_copy_fails camera _ scene Hp Hpos Hlen).
    reflexivity.
  - rewrite !(initializeGPUData_objects camera _ scene Hp Hc).
    cbn [snd d_spheres d_planes d_camera d_num_spheres d_num_planes].
    f_equal. f_equal.
    + destruct (0 <? _)%Z; [|reflexivity].
      apply cudaMemcpyToSymbol_array_twice.
    + destruct (0 <? Z.of_nat (length (collect_planes _)))%Z; [|reflexivity].
      apply cudaMemcpyToSymbol_array_twice.
Qed.

Lemma initializeGPUData_array_lengths
    {F Mat : Type} {ops : FloatOps F}
    (camera : Camera_t F) (d_scene : option (Scene_t F Mat))
    (st : Broadcast F Mat) :
  length (d_spheres st) = capacity ->
  length (d_planes st) = capacity ->
  length (d_spheres (snd (initializeGPUData camera d_scene st))) = capacity /\
  length (d_planes (snd (initializeGPUData camera d_scene st))) = capacity.
Proof.
  intros Hs Hl.
  destruct (upload_cases d_scene)
    as [-> | scene -> H | scene objs -> Hp Hpos Hlen | scene objs -> Hp Hc].
  - split; assumption.
  - rewrite (initializeGPUData_degenerate camera _ scene H). split; assumption.
  - rewrite (initializeGPUData_copy_fails camera _ scene Hp Hpos Hlen).
    split; assumption.
  - rewrite (initializeGPUData_objects camera _ scene Hp Hc).
    cbn [snd d_spheres d_planes]. split.
    + destruct (0 <? _)%Z; [|exact Hs].
      apply cudaMemcpyToSymbol_array_length. exact Hs.
    + destruct (0 <? _)%Z; [|exact Hl].
      apply cudaMemcpyToSymbol_array_length. exact Hl.
Qed.

(** X16.  When the scene announces more objects than its object array
    holds, the copy of the array fails and the failure is thrown, after the
    camera has been republished: counts and arrays are as before the call,
    the camera is the new one.  Only the null handle is refused before any
    write. *)
Theorem initializeGPUData_failed_copy_republishes_camera
    {F Mat : Type} {ops : FloatOps F}
    (camera : Camera_t F) (st : Broadcast F Mat) (scene : Scene_t F Mat)
    (device_objects : list (ImplicitObject_t F Mat)) :
  d_implicit_objects scene = Some device_objects ->
  (0 < implicit_object_count scene)%Z ->
  (Z.of_nat (length device_objects) < implicit_object_count scene)%Z ->
  let r := initializeGPUData camera (Some scene) st in
  fst r = Thrown (cuda_failure cudaErrorInvalidValue) /\
  d_camera (snd r) = to_GPUCamera camera /\
  d_spheres (snd r) = d_spheres st /\ d_planes (snd r) = d_planes st /\
  d_num_spheres (snd r) = d_num_spheres st /\
  d_num_planes (snd r) = d_num_planes st.
Proof.
  intros Hp Hpos Hlen.
  rewrite (initializeGPUData_copy_fails camera st scene Hp Hpos Hlen).
  repeat split.
Qed.

Lemma initializeGPUData_failed_copy_republishes_camera_witness :
  d_camera (snd (initializeGPUData host_camera
                   (Some (Build_Scene_t 5 (Some [host_plane])))
                   (corridor Mirror)))
  = to_GPUCamera host_camera.
Proof.
  refine (proj1 (proj2
    (initializeGPUData_failed_copy_republishes_camera host_camera
       (corridor Mirror) (Build_Scene_t 5 (Some [host_plane]))
       (device_objects := [host_plane]) eq_refl _ _))).
  - reflexivity.
  - reflexivity.
Defined.

(** X17.  After an upload that returns, both published counts are
    non-negative and together they do not exceed the object count of the
    scene (or zero when that count is negative): every object is counted at
    most once, as a sphere or as a plane. *)
Theorem initializeGPUData_counts_bounded
    {F Mat : Type} {ops : FloatOps F}
    (camera : Camera_t F) (scene : Scene_t F Mat) (st st' : Broadcast F Mat) :
  initializeGPUData camera (Some scene) st = (Returned tt, st') ->
  (0 <= d_num_spheres st')%Z /\ (0 <= d_num_planes st')%Z /\
  (d_num_spheres st' + d_num_planes st'
   <= Z.max 0 (implicit_object_count scene))%Z.
Proof.
  intros H.
  destruct (upload_cases (Some scene))
    as [E | s E Hd | s objs E Hp Hpos Hlen | s objs E Hp Hc];
    try discriminate E; injection E as <-.
  - rewrite (initializeGPUData_degenerate camera st scene Hd) in H.
    injection H as <-. cbn. lia.
  - rewrite (initializeGPUData_copy_fails camera st scene Hp Hpos Hlen) in H.
    discriminate H.
  - rewrite (initializeGPUData_objects camera st scene Hp Hc) in H.
    injection H as <-. cbn [d_num_spheres d_num_planes].
    pose proof (collect_lengths
                  (firstn (Z.to_nat (implicit_object_count scene)) objs)) as L.
    rewrite length_firstn in L. lia.
Qed.

Lemma initializeGPUData_counts_bounded_witness :
  (d_num_spheres (snd (initializeGPUData host_camera (Some small_scene)
                         empty_scene))
   + d_num_planes (snd (initializeGPUData host_camera (Some small_scene)
                          empty_scene))
   <= Z.max 0 (implicit_object_count small_scene))%Z.
Proof.
  refine (proj2 (proj2 (initializeGPUData_counts_bounded host_camera
                          small_scene empty_scene _))).
  vm_compute. reflexivity.
Defined.

(** X18.  Upload and query compose.  Starting from arrays of sixteen
    elements, after the upload of a scene with at most sixteen spheres and
    at most sixteen planes the counts lie within the arrays, and the scene
    query compares, for every ray, exactly the converted spheres of the
    scene followed by its converted planes, each kind in the order of the
    scene; what the arrays held before does not matter. *)
Theorem upload_then_query
    {F Mat Rand : Type} {ops : FloatOps F} {env : KernelEnv F Mat Rand}
    (camera : Camera_t F) (st : Broadcast F Mat) (scene : Scene_t F Mat)
    (device_objects : list (ImplicitObject_t F Mat)) (ray : Ray_t F) :
  length (d_spheres st) = capacity ->
  length (d_planes st) = capacity ->
  d_implicit_objects scene = Some device_objects ->
  (0 < implicit_object_count scene <= Z.of_nat (length device_objects))%Z ->
  let objs := firstn (Z.to_nat (implicit_object_count scene)) device_objects in
  (length (collect_spheres objs) <= capacity)%nat ->
  (length (collect_planes objs) <= capacity)%nat ->
  let st' := snd (initializeGPUData camera (Some scene) st) in
  within_arrays st' /\
  scene_candidates st' ray
  = map (intersectSphere ray) (collect_spheres objs)
    ++ map (intersectPlane ray) (collect_planes objs).
Proof.
  intros Hs Hl Hp Hc objs Cs Cp.
  rewrite (initializeGPUData_objects camera st scene Hp Hc).
  fold objs. cbn [snd]. unfold within_arrays, scene_candidates.
  cbn [d_num_spheres d_num_planes d_spheres d_planes].
  rewrite !Nat2Z.id.
  rewrite (published_prefix (d_spheres st) (collect_spheres objs) Cs).
  rewrite (published_prefix (d_planes st) (collect_planes objs) Cp).
  split; [|reflexivity]. split.
  - destruct (0 <? _)%Z; [|lia].
    rewrite cudaMemcpyToSymbol_array_length by exact Hs. exact Cs.
  - destruct (0 <? _)%Z; [|lia].
    rewrite cudaMemcpyToSymbol_array_length by exact Hl. exact Cp.
Qed.

Lemma upload_then_query_witness :
  scene_candidates
    (snd (initializeGPUData host_camera (Some small_scene) three_objects))
    axis_ray
  = map (intersectSphere axis_ray)
      (collect_spheres [host_sphere 5; host_plane; AsSphere host_lamp])
    ++ map (intersectPlane axis_ray)
         (collect_planes [host_sphere 5; host_plane; AsSphere host_lamp]).
Proof.
  refine (proj2 (upload_then_query host_camera three_objects small_scene
                   (device_objects :=
                      [host_sphere 5; host_plane; AsSphere host_lamp])
                   axis_ray _ _ eq_refl _ _ _)).
  - reflexivity.
  - reflexivity.
  - vm_compute. split; [reflexivity | discriminate].
  - vm_compute. lia.
  - vm_compute. lia.
Defined.

(** X19.  Starting from arrays of sixteen elements, after the upload of a
    scene with more than sixteen spheres or more than sixteen planes the
    published count exceeds its array: every scene query reads past the end
    of the array, and so does every call of [traceRay] with a positive
    depth budget. *)
Theorem over_capacity_upload_breaks_queries
    {F Mat Rand : Type} {ops : FloatOps F} {env : KernelEnv F Mat Rand}
    (camera : Camera_t F) (st : Broadcast F Mat) (scene : Scene_t F Mat)
    (device_objects : list (ImplicitObject_t F Mat)) :
  length (d_spheres st) = capacity ->
  length (d_planes st) = capacity ->
  d_implicit_objects scene = Some device_objects ->
  (0 < implicit_object_count scene <= Z.of_nat (length device_objects))%Z ->
  let objs := firstn (Z.to_nat (implicit_object_count scene)) device_objects in
  (capacity < length (collect_spheres objs))%nat \/
  (capacity < length (collect_planes objs))%nat ->
  let r := initializeGPUData camera (Some scene) st in
  fst r = Returned tt /\
  ~ within_arrays (snd r) /\
  (forall ray, intersectScene (snd r) ray = None) /\
  (forall ray (rand_state : Rand) max_depth,
     (0 < max_depth)%Z -> traceRay (snd r) ray rand_state max_depth = None).
Proof.
  intros Hs Hl Hp Hc objs Hover r.
  pose proof (initializeGPUData_array_lengths camera (Some scene) st
                Hs Hl) as [Ls Lp].
  fold r in Ls, Lp.
  assert (E : r = initializeGPUData camera (Some scene) st) by reflexivity.
  rewrite (initializeGPUData_objects camera st scene Hp Hc) in E.
  fold objs in E.
  assert (N : ~ within_arrays (snd r)).
  { unfold within_arrays. rewrite Ls, Lp. rewrite E.
    cbn [snd d_num_spheres d_num_planes]. rewrite !Nat2Z.id. lia. }
  split; [rewrite E; reflexivity|]. split; [exact N|]. split.
  - intros ray. apply intersectScene_None. unfold within_arrays in N. lia.
  - intros ray rand_state max_depth Hd. unfold traceRay.
    replace (traceRay_loop (snd r) (Z.to_nat max_depth) 0 _) with
      (@None (@PathState F Rand)); [reflexivity|].
    symmetry. apply traceRay_loop_None. split; [lia | exact N].
Qed.

Lemma over_capacity_upload_breaks_queries_witness :
  intersectScene
    (snd (initializeGPUData host_camera (Some crowded_scene) empty_scene))
    axis_ray = None.
Proof.
  refine (proj1 (proj2 (proj2
    (over_capacity_upload_breaks_queries (env := demo_env) host_camera
       empty_scene crowded_scene
       (device_objects := pointee (d_implicit_objects crowded_scene))
       _ _ eq_refl _ _))) axis_ray).
  - reflexivity.
  - reflexivity.
  - vm_compute. split; [reflexivity | discriminate].
  - left. vm_compute. lia.
Defined.

(** ** AgingEffects.cu: more on the two transforms *)

Lemma noise_same_cell {F : Type} {ops : FloatOps F} (p q : Point3f_t F) :
  floorf (vx p) = floorf (vx q) ->
  floorf (vy p) = floorf (vy q) ->
  floorf (vz p) = floorf (vz q) ->
  noise p = noise q.
Proof.
  intros Hx Hy Hz. unfold noise; cbn [vx vy vz]. rewrite Hx, Hy, Hz.
  reflexivity.
Qed.

(** X20.  Both transforms see the world point through the lattice cell of
    the scaled point only, and the rust effect does not read the noise
    sample of the caller: two points whose scaled coordinates have equal
    floors get the same rusted colour whatever the two noise samples, and
    the same aged paint for equal noise samples. *)
Theorem aging_constant_on_noise_cells
    {F : Type} {ops : FloatOps F}
    (base_color : Color_t F) (p q : Point3f_t F)
    (rust : RustParameters F) (paint : PaintAgingParameters F)
    (noise_value noise_value' : F) :
  let same_cell (scale : F) :=
    floorf (fmul (vx p) scale) = floorf (fmul (vx q) scale) /\
    floorf (fmul (vy p) scale) = floorf (fmul (vy q) scale) /\
    floorf (fmul (vz p) scale) = floorf (fmul (vz q) scale) in
  (same_cell (pattern_scale rust) ->
   applyRustEffect base_color p rust noise_value
   = applyRustEffect base_color q rust noise_value') /\
  (same_cell (fadd (lit 1) (fmul (crack_density paint) (lit 10))) ->
   applyPaintAging base_color p paint noise_value
   = applyPaintAging base_color q paint noise_value).
Proof.
  intros same_cell. split; intros (Hx & Hy & Hz).
  - unfold applyRustEffect.
    rewrite (noise_same_cell (vscale p (pattern_scale rust))
               (vscale q (pattern_scale rust)) Hx Hy Hz). reflexivity.
  - unfold applyPaintAging.
    rewrite (noise_same_cell (vscale p _) (vscale q _) Hx Hy Hz). reflexivity.
Qed.

Lemma aging_constant_on_noise_cells_witness :
  applyRustEffect (Color (Q2Qc 0.8) (Q2Qc 0.4) (Q2Qc 0.2))
    (Vec3 (Q2Qc 0.1) (Q2Qc 0.5) (Q2Qc 0.6))
    (Build_RustParameters (Q2Qc 1) (Q2Qc 0.5) (Q2Qc 3) (Q2Qc 0)
       (Color (Q2Qc 0.6) (Q2Qc 0.2) (Q2Qc 0.1))) (Q2Qc 0.1)
  = applyRustEffect (Color (Q2Qc 0.8) (Q2Qc 0.4) (Q2Qc 0.2))
      (Vec3 (Q2Qc 0.3) (Q2Qc 0.4) (Q2Qc 0.4))
      (Build_RustParameters (Q2Qc 1) (Q2Qc 0.5) (Q2Qc 3) (Q2Qc 0)
         (Color (Q2Qc 0.6) (Q2Qc 0.2) (Q2Qc 0.1))) (Q2Qc 0.9).
Proof.
  refine (proj1 (aging_constant_on_noise_cells
                   (Color (Q2Qc 0.8) (Q2Qc 0.4) (Q2Qc 0.2))
                   (Vec3 (Q2Qc 0.1) (Q2Qc 0.5) (Q2Qc 0.6))
                   (Vec3 (Q2Qc 0.3) (Q2Qc 0.4) (Q2Qc 0.4))
                   (Build_RustParameters (Q2Qc 1) (Q2Qc 0.5) (Q2Qc 3) (Q2Qc 0)
                      (Color (Q2Qc 0.6) (Q2Qc 0.2) (Q2Qc 0.1)))
                   PaintAgingParameters_default (Q2Qc 0.1) (Q2Qc 0.9)) _).
  repeat split; vm_compute; reflexivity.
Defined.

Section ExactPaint.
Context {F : Type} {ops : FloatOps F}.
Hypothesis Ffield :
  field_theory (lit 0) (lit 1) fadd fmul fsub fopp fdiv
    (fun x => fdiv (lit 1) x) eq.
Local Open Scope float_scope.

Add Field paint_field : Ffield.

Lemma lerp_one (a b : Color_t F) : lerp a b (lit 1) = b.
Proof. destruct a, b; unfold lerp, cadd, cscale; cbn. f_equal; ring. Qed.

Lemma fsub_self (a : F) : a - a = lit 0.
Proof. ring. Qed.

Lemma zero_fmul (a : F) : lit 0 * a = lit 0.
Proof. ring. Qed.

Lemma one_minus_zero_times (a : F) : lit 1 - lit 0 * a = lit 1.
Proof. ring. Qed.

(** With [crack_density = 0] the crack threshold is zero, and a noise
    value is never below it. *)
Lemma no_crack_at_zero_density (Hfloor : floor_below ops)
    (base_color : Color_t F) (point : Point3f_t F)
    (params : PaintAgingParameters F) (noise_value : F) :
  crack_density params = lit 0 ->
  applyPaintAging base_color point params noise_value
  = lerp (cscale base_color (lit 1 - weathering params * lit 0.3))
         (underlay_color params) (peel_factor params noise_value).
Proof.
  intros H0. unfold applyPaintAging. cbv zeta. rewrite H0, !zero_fmul.
  assert (N : forall p : Point3f_t F, (noise p <? lit 0) = false)
    by (intros p; unfold noise, hash; cbv zeta; apply Hfloor).
  rewrite N. reflexivity.
Qed.
End ExactPaint.

(** X21.  With [peeling_amount = 1] and a positive noise sample the paint
    is peeled away: the threshold is zero, [peel_factor] is one, and the
    result is the underlay colour (darkened by [0.7] where a crack is
    drawn), whatever the base colour and the weathering.  Stated for exact
    arithmetic. *)
Theorem applyPaintAging_full_peel
    {F : Type} {ops : FloatOps F} (Ffield : exact_field ops)
    (base_color : Color_t F) (point : Point3f_t F)
    (params : PaintAgingParameters F) (noise_value : F) :
  peeling_amount params = lit 1 ->
  flt (lit 0) noise_value = true ->
  peel_threshold params = lit 0 /\
  peel_factor params noise_value = lit 1 /\
  applyPaintAging base_color point params noise_value =
    (if flt (noise (vscale point
                      (fadd (lit 1) (fmul (crack_density params) (lit 10)))))
            (fmul (crack_density params) (lit 0.2))
     then cscale (underlay_color params) (lit 0.7)
     else underlay_color params).
Proof.
  intros H1 Hpos.
  assert (Ht : peel_threshold params = lit 0).
  { unfold peel_threshold. rewrite H1. apply (fsub_self Ffield). }
  assert (Hf : peel_factor params noise_value = lit 1).
  { unfold peel_factor. rewrite Ht, Hpos. reflexivity. }
  repeat split; try assumption.
  unfold applyPaintAging. rewrite Hf, (lerp_one Ffield). reflexivity.
Qed.

Lemma applyPaintAging_full_peel_witness :
  peel_factor
    (Build_PaintAgingParameters (Q2Qc 1) (Q2Qc 0.5) (Q2Qc 0.25) (Q2Qc 0)
       (Color1 (Q2Qc 0.3)))
    (Q2Qc 0.001) = Q2Qc 1.
Proof.
  refine (proj1 (proj2 (applyPaintAging_full_peel Qc_exact_field
           (Color (Q2Qc 0.8) (Q2Qc 0.4) (Q2Qc 0.2))
           (Vec3 (Q2Qc 1.5) (Q2Qc (-2.25)) (Q2Qc 7))
           (Build_PaintAgingParameters (Q2Qc 1) (Q2Qc 0.5) (Q2Qc 0.25) (Q2Qc 0)
              (Color1 (Q2Qc 0.3)))
           (Q2Qc 0.001) _ _))); reflexivity.
Defined.

(** X22.  The default parameters switch both effects off.  In exact
    arithmetic with a strict order and a floor that is not above its
    argument, [applyRustEffect] with the default [RustParameters] and
    [applyPaintAging] with the default [PaintAgingParameters] (and a noise
    sample below one) return the base colour unchanged at every point. *)
Theorem default_parameters_are_identity
    {F : Type} {ops : FloatOps F}
    (Ffield : exact_field ops) (Hord : strict_order ops)
    (Hfloor : floor_below ops)
    (base_color : Color_t F) (point : Point3f_t F) (noise_value : F) :
  applyRustEffect base_color point RustParameters_default noise_value
  = base_color /\
  (flt noise_value (lit 1) = true ->
   applyPaintAging base_color point PaintAgingParameters_default noise_value
   = base_color).
Proof.
  split.
  - unfold applyRustEffect, RustParameters_default.
    cbn [oxidation_level surface_roughness pattern_scale rust_color].
    rewrite (fmul_zero Ffield), (lerp_zero Ffield), (fmul_zero Ffield).
    rewrite (fadd_zero Ffield), (fdiv_one_one Ffield).
    apply (cscale_one Ffield).
  - intros Hlt.
    rewrite (no_crack_at_zero_density Ffield Hfloor) by reflexivity.
    unfold peel_factor, peel_threshold, PaintAgingParameters_default.
    cbn [peeling_amount weathering underlay_color].
    rewrite (fsub_zero Ffield), (flt_asym Hord _ _ Hlt).
    rewrite (lerp_zero Ffield), (one_minus_zero_times Ffield).
    apply (cscale_one Ffield).
Qed.

Lemma Qc_floor_below : floor_below Qc_ops.
Proof.
  intros x; simpl. apply Qc_ltb_ge.
  refine (proj1 (Qcle_minus_iff (Qc_floor x) x) _).
  unfold Qcle, Qc_floor. cbn [this Q2Qc]. rewrite Qred_correct.
  apply Qfloor_le.
Qed.

Lemma default_parameters_are_identity_witness :
  applyPaintAging (Color (Q2Qc 0.8) (Q2Qc 0.4) (Q2Qc 0.2))
    (Vec3 (Q2Qc 1.5) (Q2Qc (-2.25)) (Q2Qc 7))
    PaintAgingParameters_default (Q2Qc 0.5)
  = Color (Q2Qc 0.8) (Q2Qc 0.4) (Q2Qc 0.2).
Proof.
  refine (proj2 (default_parameters_are_identity Qc_exact_field
                   Qc_strict_order Qc_floor_below
                   (Color (Q2Qc 0.8) (Q2Qc 0.4) (Q2Qc 0.2))
                   (Vec3 (Q2Qc 1.5) (Q2Qc (-2.25)) (Q2Qc 7)) (Q2Qc 0.5)) _).
  reflexivity.
Defined.

(** ** The parameter window *)

Lemma array_set_length {A : Type} (a : list A) (i : nat) (v : A) :
  length (array_set a i v) = length a.
Proof.
  revert i. induction a as [|x a IH]; intros [|i]; cbn; auto.
Qed.

Lemma array_set_same {A : Type} (a : list A) (i : nat) (v : A) :
  (i < length a)%nat -> nth_error (array_set a i v) i = Some v.
Proof.
  revert i. induction a as [|x a IH]; intros [|i] H; cbn in *; try lia.
  - reflexivity.
  - apply IH. lia.
Qed.

Lemma array_set_other {A : Type} (a : list A) (i j : nat) (v : A) :
  i <> j -> nth_error (array_set a i v) j = nth_error a j.
Proof.
  revert i j. induction a as [|x a IH]; intros [|i] [|j] H; cbn; try reflexivity.
  - congruence.
  - apply IH. congruence.
Qed.

Lemma array_write_length {A : Type} (a : list A) (i : Z) (v : A) :
  length (array_write a i v) = length a.
Proof.
  unfold array_write. destruct (i <? 0)%Z; [reflexivity|].
  apply array_set_length.
Qed.

Lemma array_read_write_same {A : Type} (a : list A) (i : Z) (v : A) :
  (0 <= i < Z.of_nat (length a))%Z ->
  array_read (array_write a i v) i = Some v.
Proof.
  intros H. unfold array_read, array_write.
  replace (i <? 0)%Z with false by (symmetry; apply Z.ltb_ge; lia).
  apply array_set_same. lia.
Qed.

Lemma array_read_write_other {A : Type} (a : list A) (i j : Z) (v : A) :
  i <> j -> array_read (array_write a i v) j = array_read a j.
Proof.
  intros H. unfold array_read, array_write.
  destruct (j <? 0)%Z eqn:J; [reflexivity|].
  destruct (i <? 0)%Z eqn:I; [reflexivity|].
  apply array_set_other. apply Z.ltb_ge in I, J. lia.
Qed.

Lemma isClickOnSlider_band (x y i : Z) :
  (0 <= i <= 5)%Z ->
  isClickOnSlider x y i = true ->
  (10 <= x <= 210)%Z /\
  (if (3 <=? i)%Z then 30 * i + 30 <= y <= 30 * i + 50
   else 30 * i + 10 <= y <= 30 * i + 30)%Z.
Proof.
  intros Hi H. unfold isClickOnSlider, MARGIN, SLIDER_HEIGHT, SLIDER_WIDTH in H.
  destruct (3 <=? i)%Z;
    repeat (apply andb_prop in H as [H ?]);
    repeat match goal with
           | E : (_ <=? _)%Z = true |- _ => apply Z.leb_le in E
           end; lia.
Qed.

Lemma isClickOnSlider_disjoint (x y i j : Z) :
  (0 <= i <= 5)%Z -> (0 <= j <= 5)%Z ->
  isClickOnSlider x y i = true -> isClickOnSlider x y j = true -> i = j.
Proof.
  intros Hi Hj Ci Cj.
  apply (isClickOnSlider_band x y Hi) in Ci as [_ Bi].
  apply (isClickOnSlider_band x y Hj) in Cj as [_ Bj].
  destruct (3 <=? i)%Z eqn:Ei, (3 <=? j)%Z eqn:Ej;
    try apply Z.leb_le in Ei; try apply Z.leb_gt in Ei;
    try apply Z.leb_le in Ej; try apply Z.leb_gt in Ej; lia.
Qed.

Section WindowFacts.
Context {F : Type} {ops : FloatOps F}.
Hypothesis Hord : strict_order ops.
Hypothesis zero_below_one : flt (lit 0) (lit 1) = true.

Lemma zero_in_unit_interval : in_unit_interval (lit 0).
Proof.
  split; [apply (flt_irrefl Hord) | apply (flt_asym Hord); exact zero_below_one].
Qed.

Lemma slider_value_in_unit_interval (x : Z) : in_unit_interval (slider_value x).
Proof.
  unfold slider_value, std_max, std_min. cbv zeta.
  set (value := fdiv (of_int (x - MARGIN)) (of_int SLIDER_WIDTH)).
  destruct (flt value (lit 1)) eqn:V.
  - destruct (flt (lit 0) value) eqn:P.
    + split; [apply (flt_asym Hord); exact P | apply (flt_asym Hord); exact V].
    + apply zero_in_unit_interval.
  - rewrite zero_below_one. split.
    + apply (flt_asym Hord). exact zero_below_one.
    + apply (flt_irrefl Hord).
Qed.

Lemma updateSliderValue_consistent (ui : AgingUI F) (i x : Z) :
  (0 <= i <= 5)%Z -> ui_consistent ui -> ui_consistent (updateSliderValue ui i x).
Proof.
  intros Hi [L1 L2 S0 S1 S3 S4 S5 R0 R1 R3 R4 R5 RP].
  pose proof (slider_value_in_unit_interval x) as V.
  assert (Hsame : forall k, (0 <= k <= 5)%Z ->
            array_read (array_write (slider_positions ui) k (slider_value x)) k
            = Some (slider_value x))
    by (intros k Hk; apply array_read_write_same; lia).
  assert (C : (i = 0 \/ i = 1 \/ i = 2 \/ i = 3 \/ i = 4 \/ i = 5)%Z) by lia.
  destruct C as [-> | [-> | [-> | [-> | [-> | ->]]]]];
    unfold updateSliderValue; cbv zeta;
    constructor;
    cbn [with_rust with_paint with_sliders rust_params paint_params
         slider_positions dragging oxidation_level surface_roughness
         pattern_scale peeling_amount crack_density weathering];
    rewrite ?array_write_length;
    try assumption;
    try (rewrite array_read_write_other by discriminate; assumption);
    try (apply Hsame; lia);
    first
      [ right; exists (slider_value x);
        split; [exact V|]; split; [apply Hsame; lia | reflexivity]
      | destruct RP as [RP | (v & Hv & Hr & Hp)];
        [ left; exact RP
        | right; exists v;
          rewrite array_read_write_other by discriminate; auto ] ].
Qed.

Lemma with_dragging_consistent (ui : AgingUI F) (i : Z) (b : bool) :
  ui_consistent ui ->
  ui_consistent (with_dragging ui (array_write (dragging ui) i b)).
Proof.
  intros [L1 L2 S0 S1 S3 S4 S5 R0 R1 R3 R4 R5 RP].
  constructor; cbn [with_dragging rust_params paint_params slider_positions
                    dragging]; rewrite ?array_write_length; assumption.
Qed.

Lemma fold_indices_consistent (step : AgingUI F -> Z -> AgingUI F)
    (ui : AgingUI F) :
  (forall u i, (0 <= i <= 5)%Z -> ui_consistent u -> ui_consistent (step u i)) ->
  ui_consistent ui -> ui_consistent (fold_left step slider_indices ui).
Proof.
  intros Hstep H. unfold slider_indices. cbn [fold_left].
  repeat (apply Hstep; [lia|]). exact H.
Qed.

Lemma processEvent_consistent (ui : AgingUI F) (event : XEvent) :
  ui_consistent ui -> ui_consistent (processEvent ui event).
Proof.
  intros H. destruct event as [x y | x y | x y |]; cbn [processEvent].
  - unfold handleMousePress. apply fold_indices_consistent; [|exact H].
    intros u i Hi Hu. destruct (isClickOnSlider x y i); [|exact Hu].
    apply updateSliderValue_consistent; [exact Hi|].
    apply with_dragging_consistent. exact Hu.
  - unfold handleMouseRelease. apply fold_indices_consistent; [|exact H].
    intros u i Hi Hu. apply with_dragging_consistent. exact Hu.
  - unfold handleMouseMotion. apply fold_indices_consistent; [|exact H].
    intros u i Hi Hu. destruct (array_read (dragging u) i) as [[|]|];
      try exact Hu.
    apply updateSliderValue_consistent; assumption.
  - exact H.
Qed.

Lemma AgingUI_ctor_consistent (uninit : list F) :
  length uninit = 8%nat -> ui_consistent (AgingUI_ctor uninit).
Proof.
  intros L.
  destruct uninit as [|s0 [|s1 [|s2 [|s3 [|s4 [|s5 [|s6 [|s7 [|]]]]]]]]];
    try discriminate L.
  pose proof zero_in_unit_interval as Z0.
  constructor; try reflexivity; try exact Z0.
  left. reflexivity.
Qed.
End WindowFacts.

(** X23.  Setting slider [i] (one of the six) from a pointer position
    stores a value of the unit interval in the slider, whatever the
    position; the parameter the slider drives becomes that value (ten times
    that value for the pattern scale), and the other five sliders, the other
    five parameters and the dragging flags stay as they were.  Stated for a
    comparison that is a strict order with zero below one. *)
Theorem updateSliderValue_round_trip
    {F : Type} {ops : FloatOps F} (Hord : strict_order ops)
    (ui : AgingUI F) (i x : Z) :
  flt (lit 0) (lit 1) = true ->
  (0 <= i <= 5)%Z ->
  length (slider_positions ui) = 8%nat ->
  let ui' := updateSliderValue ui i x in
  let v := slider_value x in
  in_unit_interval v /\
  array_read (slider_positions ui') i = Some v /\
  ui_parameter ui' i = Some (if (i =? 2)%Z then fmul v (lit 10) else v) /\
  dragging ui' = dragging ui /\
  (forall j, j <> i ->
     array_read (slider_positions ui') j = array_read (slider_positions ui) j /\
     ui_parameter ui' j = ui_parameter ui j).
Proof.
  intros H01 Hi L ui' v.
  split; [apply (slider_value_in_unit_interval Hord H01)|].
  assert (C : (i = 0 \/ i = 1 \/ i = 2 \/ i = 3 \/ i = 4 \/ i = 5)%Z) by lia.
  destruct C as [-> | [-> | [-> | [-> | [-> | ->]]]]];
    unfold ui', updateSliderValue; cbv zeta;
    cbn [with_rust with_paint with_sliders rust_params paint_params
         slider_positions dragging ui_parameter Z.eqb Pos.eqb];
    (split; [apply array_read_write_same; lia|]);
    (split; [reflexivity|]); (split; [reflexivity|]);
    intros j Hj; (split; [apply array_read_write_other; congruence|]);
    destruct j as [|[[|[]|]|[|[]|]|]|]; try reflexivity; congruence.
Qed.

Lemma updateSliderValue_round_trip_witness :
  ui_parameter (updateSliderValue (AgingUI_ctor (repeat (Q2Qc 0) 8)) 0 110) 0
  = Some (slider_value 110).
Proof.
  refine (proj1 (proj2 (proj2
    (updateSliderValue_round_trip Qc_strict_order
       (AgingUI_ctor (repeat (Q2Qc 0) 8)) (i := 0) 110 _ _ _)))).
  - reflexivity.
  - lia.
  - reflexivity.
Defined.

(** The middle of the slider stands for one half. *)
Example slider_value_middle : this (slider_value (F := Qc) 110) = (1 # 2)%Q.
Proof. vm_compute. reflexivity. Qed.

(** X24.  Whatever events the window processes after its construction, it
    stays consistent: the five directly driven parameters equal their
    sliders and lie in the unit interval, and the pattern scale is its
    default or ten times a slider value of the unit interval.  The
    parameters the renderer fetches are therefore always in range.  Stated
    for a comparison that is a strict order with zero below one. *)
Theorem window_stays_consistent
    {F : Type} {ops : FloatOps F} (Hord : strict_order ops)
    (uninit : list F) (events : list XEvent) :
  flt (lit 0) (lit 1) = true ->
  length uninit = 8%nat ->
  let ui := fold_left processEvent events (AgingUI_ctor uninit) in
  ui_consistent ui /\
  in_unit_interval (oxidation_level (getRustParams ui)) /\
  in_unit_interval (surface_roughness (getRustParams ui)) /\
  in_unit_interval (peeling_amount (getPaintParams ui)) /\
  in_unit_interval (crack_density (getPaintParams ui)) /\
  in_unit_interval (weathering (getPaintParams ui)).
Proof.
  intros H01 L ui.
  assert (C : ui_consistent ui).
  { unfold ui.
    pose proof (AgingUI_ctor_consistent Hord H01 uninit L) as C0.
    revert C0. generalize (AgingUI_ctor uninit).
    induction events as [|e events IH]; intros u Cu; [exact Cu|].
    cbn [fold_left]. apply IH.
    apply (processEvent_consistent Hord H01). exact Cu. }
  split; [exact C|]. destruct C as [_ _ _ _ _ _ _ R0 R1 R3 R4 R5 _].
  unfold getRustParams, getPaintParams.
  exact (conj R0 (conj R1 (conj R3 (conj R4 R5)))).
Qed.

Lemma window_stays_consistent_witness :
  in_unit_interval
    (oxidation_level
       (getRustParams
          (fold_left processEvent
             [ButtonPress 500 15; MotionNotify (-40) 300; ButtonRelease 0 0]
             (AgingUI_ctor (repeat (Q2Qc 0) 8))))).
Proof.
  refine (proj1 (proj2 (window_stays_consistent Qc_strict_order
                          (repeat (Q2Qc 0) 8)
                          [ButtonPress 500 15; MotionNotify (-40) 300;
                           ButtonRelease 0 0] _ _))); reflexivity.
Defined.

Section PressFacts.
Context {F : Type} {ops : FloatOps F}.

Lemma handleMousePress_one (ui : AgingUI F) (x y i : Z) :
  (0 <= i <= 5)%Z ->
  isClickOnSlider x y i = true ->
  handleMousePress ui x y
  = updateSliderValue (with_dragging ui (array_write (dragging ui) i true)) i x.
Proof.
  intros Hi Ci.
  assert (Hoth : forall j, (0 <= j <= 5)%Z -> j <> i ->
                   isClickOnSlider x y j = false).
  { intros j Hj Hne. destruct (isClickOnSlider x y j) eqn:Cj; [|reflexivity].
    exfalso. apply Hne. exact (isClickOnSlider_disjoint x y Hj Hi Cj Ci). }
  assert (C : (i = 0 \/ i = 1 \/ i = 2 \/ i = 3 \/ i = 4 \/ i = 5)%Z) by lia.
  unfold handleMousePress, slider_indices. cbn [fold_left].
  destruct C as [-> | [-> | [-> | [-> | [-> | ->]]]]];
    rewrite Ci;
    repeat match goal with
           | |- context [isClickOnSlider x y ?j] =>
               rewrite (Hoth j) by lia
           end;
    reflexivity.
Qed.

Lemma handleMousePress_none (ui : AgingUI F) (x y : Z) :
  (forall i, (0 <= i <= 5)%Z -> isClickOnSlider x y i = false) ->
  handleMousePress ui x y = ui.
Proof.
  intros H. unfold handleMousePress, slider_indices. cbn [fold_left].
  rewrite !H by lia. reflexivity.
Qed.
End PressFacts.

(** X25.  The six sliders do not overlap, so a button press moves at most
    one of them: a press inside slider [i] marks that slider as dragged and
    sets it from the pointer position, exactly as [updateSliderValue] does,
    leaving the other dragging flags alone; a press outside every slider
    changes nothing. *)
Theorem press_moves_one_slider
    {F : Type} {ops : FloatOps F} (ui : AgingUI F) (x y i : Z) :
  length (dragging ui) = 8%nat ->
  (0 <= i <= 5)%Z ->
  (forall j, (0 <= j <= 5)%Z ->
     isClickOnSlider x y i = true -> isClickOnSlider x y j = true -> j = i) /\
  (isClickOnSlider x y i = true ->
   let ui' := processEvent ui (ButtonPress x y) in
   ui' = updateSliderValue
           (with_dragging ui (array_write (dragging ui) i true)) i x /\
   array_read (dragging ui') i = Some true /\
   (forall j, j <> i ->
      array_read (dragging ui') j = array_read (dragging ui) j)) /\
  ((forall j, (0 <= j <= 5)%Z -> isClickOnSlider x y j = false) ->
   processEvent ui (ButtonPress x y) = ui).
Proof.
  intros L Hi. split; [|split].
  - intros j Hj Ci Cj. exact (isClickOnSlider_disjoint x y Hj Hi Cj Ci).
  - intros Ci ui'. unfold ui'. cbn [processEvent].
    rewrite (handleMousePress_one ui x y Hi Ci).
    assert (D : dragging (updateSliderValue
                            (with_dragging ui
                               (array_write (dragging ui) i true)) i x)
                = array_write (dragging ui) i true).
    { assert (C : (i = 0 \/ i = 1 \/ i = 2 \/ i = 3 \/ i = 4 \/ i = 5)%Z) by lia.
      destruct C as [-> | [-> | [-> | [-> | [-> | ->]]]]]; reflexivity. }
    split; [reflexivity|]. rewrite D. split.
    + apply array_read_write_same. lia.
    + intros j Hj. apply array_read_write_other. congruence.
  - intros Hnone. cbn [processEvent]. apply handleMousePress_none. exact Hnone.
Qed.

Lemma press_moves_one_slider_witness :
  array_read
    (dragging (processEvent (AgingUI_ctor (repeat (Q2Qc 0) 8))
                 (ButtonPress 110 130))) 3
  = Some true.
Proof.
  destruct (press_moves_one_slider (AgingUI_ctor (repeat (Q2Qc 0) 8))
              110 130 (i := 3)) as (_ & H & _);
    [reflexivity | lia |].
  apply H. reflexivity.
Defined.

(** X26.  Releasing the button ends every drag and changes no parameter
    and no slider: after a release, pointer motion leaves the window as it
    is, until the next press.  A window that has just been constructed
    ignores pointer motion as well. *)
Theorem release_stops_dragging
    {F : Type} {ops : FloatOps F} (ui : AgingUI F) (x y x' y' : Z) :
  length (dragging ui) = 8%nat ->
  let ui' := processEvent ui (ButtonRelease x y) in
  (forall i, (0 <= i <= 5)%Z -> array_read (dragging ui') i = Some false) /\
  rust_params ui' = rust_params ui /\
  paint_params ui' = paint_params ui /\
  slider_positions ui' = slider_positions ui /\
  processEvent ui' (MotionNotify x' y') = ui' /\
  (forall uninit : list F,
     processEvent (AgingUI_ctor uninit) (MotionNotify x' y')
     = AgingUI_ctor uninit).
Proof.
  intros L ui'.
  destruct ui as [r p w s d]. cbn [dragging] in L.
  destruct d as [|d0 [|d1 [|d2 [|d3 [|d4 [|d5 [|d6 [|d7 [|]]]]]]]]];
    try discriminate L.
  repeat split.
  - intros i Hi.
    assert (C : (i = 0 \/ i = 1 \/ i = 2 \/ i = 3 \/ i = 4 \/ i = 5)%Z) by lia.
    destruct C as [-> | [-> | [-> | [-> | [-> | ->]]]]]; reflexivity.
Qed.

Lemma release_stops_dragging_witness :
  processEvent
    (processEvent
       (processEvent (AgingUI_ctor (repeat (Q2Qc 0) 8)) (ButtonPress 110 15))
       (ButtonRelease 110 15))
    (MotionNotify 200 15)
  = processEvent
      (processEvent (AgingUI_ctor (repeat (Q2Qc 0) 8)) (ButtonPress 110 15))
      (ButtonRelease 110 15).
Proof.
  refine (proj1 (proj2 (proj2 (proj2 (proj2
    (release_stops_dragging
       (processEvent (AgingUI_ctor (repeat (Q2Qc 0) 8)) (ButtonPress 110 15))
       110 15 200 15 _)))))).
  reflexivity.
Defined.
